(** * Banksformer bootstrap scripts: [train_seed.py] and [train_colab.py]

    A shallow embedding of the two scripts of the repository and the
    properties their specification states about them.

    The scripts are sequences of calls into the Python runtime and into
    libraries (random, numpy, torch, yaml, os, pathlib, logging, the import
    system).  The embedding keeps the scripts' own control flow as it is
    written and threads an explicit [World] through it; Python exceptions
    are the [Raise] outcome of a small state-and-exception monad.  What
    the libraries do is described by the definitions of the modules [Py]
    and [os] (for the parts whose behaviour is fixed: [dict.get],
    truthiness, [int] on numbers, [random.seed], [numpy.random.seed], the
    resolution of paths, [os.makedirs]) and by the fields of [Env] (for
    the parts that depend on the installation: which modules can be
    imported, what torch does, what the YAML parser returns, how [int]
    reads text, what the [train] collaborator does). *)

From Stdlib Require Import ZArith String Ascii List Lia.
From stdpp Require Import gmap strings list.

Set Warnings "-register-all".
Local Open Scope string_scope.
Local Open Scope Z_scope.

(** ** Python exceptions *)

Module Py.

(** The classes of [Exception] the scripts can meet. *)
Inductive exception : Type :=
  | ValueError
  | TypeError
  | OverflowError
  | AttributeError
  | ImportError
  | ModuleNotFoundError
  | FileNotFoundError
  | FileExistsError
  | IsADirectoryError
  | NotADirectoryError
  | OSError
  | RuntimeError
  | RecursionError
  | YAMLError
  | OtherError (name : string).

(** What a [raise] carries: an instance of [Exception], which
    [except Exception] catches, or [SystemExit], raised by [sys.exit],
    which derives from [BaseException] only and passes through
    [except Exception]. *)
Inductive raised : Type :=
  | Exc (e : exception)
  | SystemExit (code : Z).

Inductive outcome (A : Type) : Type :=
  | Ret (a : A)
  | Raise (r : raised).
Arguments Ret {A} a.
Arguments Raise {A} r.

(** ** Values of a parsed YAML document *)

(** A float is kept by its exact value, or as one of the non-finite ones. *)
Inductive pyfloat : Type :=
  | Finite (num : Z) (den : positive)
  | Infinity (negative : bool)
  | NaN.

(** The objects [yaml.safe_load] builds.  A [str] is kept as its UTF-8
    bytes.  A mapping is kept in two parts: its entries under [str] keys,
    which are the ones the scripts look up, and its entries under keys of
    other types (numbers, booleans, [None], bytes, dates). *)
Inductive value : Type :=
  | VNone
  | VBool (b : bool)
  | VInt (z : Z)
  | VFloat (f : pyfloat)
  | VStr (s : string)
  | VBytes (b : string)
  | VDate (ordinal : Z)
  | VDatetime (microsecond : Z) (utcoffset : option Z)
  | VList (l : list value)
  | VTuple (l : list value)
  | VSet (l : list value)
  | VDict (d : gmap string value) (others : list (value * value)).

(** [d.get(key, default)] with a [str] key; only a mapping has a [get]. *)
Definition get (d : value) (key : string) (default : value) : exception + value :=
  match d with
  | VDict m _ => inr (match m !! key with Some v => v | None => default end)
  | _ => inl AttributeError
  end.

Definition is_nil {A} (l : list A) : bool :=
  match l with [] => true | _ => false end.

(** Truth value of an object, as [if x:] tests it. *)
Definition truthy (v : value) : bool :=
  match v with
  | VNone => false
  | VBool b => b
  | VInt z => negb (z =? 0)
  | VFloat (Finite n _) => negb (n =? 0)
  | VFloat _ => true
  | VStr s | VBytes s => negb (String.eqb s "")
  | VDate _ | VDatetime _ _ => true
  | VList l | VTuple l | VSet l => negb (is_nil l)
  | VDict m others => negb (bool_decide (m = ∅) && is_nil others)
  end.

Definition is_none (v : value) : bool :=
  match v with VNone => true | _ => false end.

(** *** [int(x)] *)

(** How [int] reads text depends on the interpreter: on its version (the
    table of Unicode decimal digits and white space for a [str]) and on
    its settings (the limit on the number of digits,
    [sys.set_int_max_str_digits]).  The two readings, of a [str] and of
    [bytes], are therefore given with the installation; [None] stands for
    the [ValueError] of a text that is not read as an integer. *)
Record interpreter : Type :=
  { int_of_str : string → option Z;
    int_of_bytes : string → option Z }.

(** [int(x)] for the objects of a YAML document: integers as they are,
    booleans as 0 and 1, floats truncated towards zero, text as the
    interpreter reads it; the rest is a [TypeError]. *)
Definition int (py : interpreter) (v : value) : exception + Z :=
  match v with
  | VInt z => inr z
  | VBool b => inr (if b then 1 else 0)
  | VFloat (Finite n d) => inr (Z.quot n (Z.pos d))
  | VFloat (Infinity _) => inl OverflowError
  | VFloat NaN => inl ValueError
  | VStr s => match int_of_str py s with Some z => inr z | None => inl ValueError end
  | VBytes b => match int_of_bytes py b with Some z => inr z | None => inl ValueError end
  | VNone | VDate _ | VDatetime _ _ | VList _ | VTuple _ | VSet _ | VDict _ _ =>
      inl TypeError
  end.

(** *** How CPython 3.11 reads ASCII text

    With the default limit of 4300 digits: white space stripped at both
    ends, an optional sign, decimal digits with single underscores
    allowed between two of them. *)

Definition is_space (c : ascii) : bool :=
  let n := nat_of_ascii c in
  (Nat.eqb n 32 || (Nat.leb 9 n && Nat.leb n 13))%bool.

Fixpoint lstrip (s : string) : string :=
  match s with
  | String c s' => if is_space c then lstrip s' else s
  | EmptyString => EmptyString
  end.

Definition strip (s : string) : string :=
  String.rev (lstrip (String.rev (lstrip s))).

Definition digit_of (c : ascii) : option Z :=
  let n := nat_of_ascii c in
  if (Nat.leb 48 n && Nat.leb n 57)%bool then Some (Z.of_nat n - 48) else None.

(** Decimal digits, single underscores allowed between two digits; [room]
    is the number of digits still allowed. *)
Fixpoint parse_digits (s : string) (acc : Z) (after_digit : bool) (room : nat)
  : option Z :=
  match s with
  | EmptyString => if after_digit then Some acc else None
  | String c s' =>
      if Ascii.eqb c "_"%char
      then (if after_digit then parse_digits s' acc false room else None)
      else match digit_of c, room with
           | Some d, S room' => parse_digits s' (10 * acc + d) true room'
           | _, _ => None
           end
  end.

Definition ascii_literal (s : string) : option Z :=
  match strip s with
  | String c s' =>
      if Ascii.eqb c "-"%char then Z.opp <$> parse_digits s' 0 false 4300
      else if Ascii.eqb c "+"%char then parse_digits s' 0 false 4300
      else parse_digits (String c s') 0 false 4300
  | EmptyString => None
  end.

End Py.

Import Py.

(** ** The process state *)

(** A Mersenne Twister generator is determined by what initialised it and
    by how many outputs were drawn since. *)
Inductive origin : Type :=
  | OsEntropy (e : Z)
  | Seeded (key : Z).

Record rng : Type := { rng_origin : origin; rng_drawn : nat }.

Definition fresh (key : Z) : rng := {| rng_origin := Seeded key; rng_drawn := 0 |}.

(** Drawing one output; [out] is the generator's output function. *)
Definition draw (out : origin → nat → Z) (g : rng) : Z * rng :=
  (out (rng_origin g) (rng_drawn g),
   {| rng_origin := rng_origin g; rng_drawn := S (rng_drawn g) |}).

Fixpoint draws (out : origin → nat → Z) (n : nat) (g : rng) : list Z * rng :=
  match n with
  | O => ([], g)
  | S n' => let '(x, g') := draw out g in
            let '(xs, g'') := draws out n' g' in
            (x :: xs, g'')
  end.

(** The settings torch was asked to make and accepted, oldest first. *)
Inductive torch_action : Type :=
  | ManualSeed (seed : Z)
  | CudaManualSeedAll (seed : Z)
  | SetCudnnDeterministic (b : bool)
  | SetCudnnBenchmark (b : bool).

(** A file system entry.  The file system maps the absolute path of an
    entry, the list of its components below the root, to what is
    there; the root itself is the empty list and always a directory.
    There are no symbolic links and no access rights in it. *)
Inductive node : Type :=
  | File (content : string)
  | Dir.

(** Records handed to the [logging] module. *)
Inductive level : Type := INFO | WARNING | ERROR.

Inductive log_arg : Type :=
  | ArgStr (s : string)
  | ArgValue (v : value)
  | ArgExc (e : exception).

Record log_record : Type :=
  { rec_level : level; rec_msg : string; rec_args : list log_arg }.

(** Calls the scripts make that the properties below speak about, in the
    order they are made. *)
Inductive call : Type :=
  | CallSetSeed (seed : Z)
  | CallRandomSeed (seed : Z)
  | CallNumpySeed (seed : Z)
  | CallMakedirs (name : value)
  | CallImport (what : string)
  | CallTrain (config : value).

Record World : Type :=
  { py_random : rng;                       (* the global generator of [random] *)
    np_random : rng;                       (* the global generator of [numpy.random] *)
    torch_done : list torch_action;
    fs : gmap (list string) node;
    log_config : option level;             (* root logger level, once configured *)
    log : list log_record;
    stdout : list string;
    calls : list call;
    cwd : list string;                     (* the current directory, from the root *)
    stack_room : nat }.                    (* nested calls the interpreter stack still takes *)

Definition with_py_random (g : rng) (w : World) : World :=
  {| py_random := g; np_random := np_random w; torch_done := torch_done w;
     fs := fs w; log_config := log_config w; log := log w;
     stdout := stdout w; calls := calls w;
     cwd := cwd w; stack_room := stack_room w |}.

Definition with_np_random (g : rng) (w : World) : World :=
  {| py_random := py_random w; np_random := g; torch_done := torch_done w;
     fs := fs w; log_config := log_config w; log := log w;
     stdout := stdout w; calls := calls w;
     cwd := cwd w; stack_room := stack_room w |}.

Definition with_torch_done (t : list torch_action) (w : World) : World :=
  {| py_random := py_random w; np_random := np_random w; torch_done := t;
     fs := fs w; log_config := log_config w; log := log w;
     stdout := stdout w; calls := calls w;
     cwd := cwd w; stack_room := stack_room w |}.

Definition with_fs (f : gmap (list string) node) (w : World) : World :=
  {| py_random := py_random w; np_random := np_random w; torch_done := torch_done w;
     fs := f; log_config := log_config w; log := log w;
     stdout := stdout w; calls := calls w;
     cwd := cwd w; stack_room := stack_room w |}.

Definition with_log_config (c : option level) (w : World) : World :=
  {| py_random := py_random w; np_random := np_random w; torch_done := torch_done w;
     fs := fs w; log_config := c; log := log w;
     stdout := stdout w; calls := calls w;
     cwd := cwd w; stack_room := stack_room w |}.

Definition with_log (l : list log_record) (w : World) : World :=
  {| py_random := py_random w; np_random := np_random w; torch_done := torch_done w;
     fs := fs w; log_config := log_config w; log := l;
     stdout := stdout w; calls := calls w;
     cwd := cwd w; stack_room := stack_room w |}.

Definition with_stdout (o : list string) (w : World) : World :=
  {| py_random := py_random w; np_random := np_random w; torch_done := torch_done w;
     fs := fs w; log_config := log_config w; log := log w;
     stdout := o; calls := calls w;
     cwd := cwd w; stack_room := stack_room w |}.

Definition with_calls (c : list call) (w : World) : World :=
  {| py_random := py_random w; np_random := np_random w; torch_done := torch_done w;
     fs := fs w; log_config := log_config w; log := log w;
     stdout := stdout w; calls := c;
     cwd := cwd w; stack_room := stack_room w |}.
(** ** Statements: state passing with exceptions *)

(** A statement runs in a world and ends normally with a value or by a
    raise; either way the effects it had up to there stay. *)
Definition M (A : Type) : Type := World → outcome A * World.

Definition ret {A} (a : A) : M A := fun w => (Ret a, w).

Definition raise {A} (r : raised) : M A := fun w => (Raise r, w).

Definition bind {A B} (m : M A) (k : A → M B) : M B :=
  fun w => match m w with
           | (Ret a, w') => k a w'
           | (Raise r, w') => (Raise r, w')
           end.

Notation "'let*' x ':=' m 'in' k" := (bind m (fun x => k))
  (at level 10, x name, m at level 100, k at level 200).
Notation "m >> k" := (bind m (fun _ => k))
  (at level 10, k at level 200).

(** [try: body except Exception as e: handler(e)]. *)
Definition try_except {A} (body : M A) (handler : exception → M A) : M A :=
  fun w => match body w with
           | (Raise (Exc e), w') => handler e w'
           | r => r
           end.

(** An operation of the runtime that fails with an [Exception] or not. *)
Definition lift {A} (r : exception + A) : M A :=
  match r with inr a => ret a | inl e => raise (Exc e) end.

Definition modify (f : World → World) : M unit := fun w => (Ret tt, f w).

Definition note (c : call) : M unit :=
  modify (fun w => with_calls (calls w ++ [c]) w).

(** [print(s)] *)
Definition print (s : string) : M unit :=
  modify (fun w => with_stdout (stdout w ++ [s]) w).

(** [sys.exit(code)] *)
Module sys.
Definition exit {A} (code : Z) : M A := raise (SystemExit code).
End sys.

(** The status the interpreter ends the process with. *)
Definition exit_status {A} (o : outcome A) : Z :=
  match o with
  | Ret _ => 0
  | Raise (SystemExit code) => code
  | Raise (Exc _) => 1
  end.

(** ** The libraries the scripts call *)

(** [random.seed(a)] with an integer [a]: the generator is initialised
    from the absolute value of [a]; every integer is accepted. *)
Module random.
Definition seed (a : Z) : M unit :=
  note (CallRandomSeed a) >>
  modify (fun w => with_py_random (fresh (Z.abs a)) w).
End random.

(** [numpy.random.seed(seed)] with an integer: the legacy seeding of the
    global [RandomState], which raises [ValueError] ("Seed must be between
    0 and 2**32 - 1") outside that range and initialises the generator
    from the seed inside it. *)
Module numpy.
Definition seed_in_range (seed : Z) : bool :=
  (0 <=? seed) && (seed <=? 2 ^ 32 - 1).

Definition random_seed (seed : Z) : M unit :=
  note (CallNumpySeed seed) >>
  if seed_in_range seed
  then modify (fun w => with_np_random (fresh seed) w)
  else raise (Exc ValueError).
End numpy.

(** torch, when it is installed.  Whether it accepts a setting depends on
    the build and the machine (a seed out of its range, no usable GPU):
    [refuses] gives the exception it answers a request with, if any, from
    the request and the settings accepted so far. *)
Record torch_module : Type :=
  { refuses : torch_action → list torch_action → option exception }.

Definition torch_do (t : torch_module) (a : torch_action) : M unit :=
  fun w => match refuses t a (torch_done w) with
           | Some e => (Raise (Exc e), w)
           | None => (Ret tt, with_torch_done (torch_done w ++ [a]) w)
           end.

(** The YAML parser: from the text of a document to its value. *)
Record yaml_module : Type :=
  { safe_load : string → exception + value }.

Module logging.
(** [logging.basicConfig(level=...)] configures the root logger unless it
    is configured already. *)
Definition basicConfig (l : level) : M unit :=
  modify (fun w => match log_config w with
                   | None => with_log_config (Some l) w
                   | Some _ => w
                   end).

Definition emit (l : level) (msg : string) (args : list log_arg) : M unit :=
  modify (fun w =>
    with_log (log w ++ [{| rec_level := l; rec_msg := msg; rec_args := args |}]) w).

Definition info := emit INFO.
Definition warning := emit WARNING.
Definition error := emit ERROR.
End logging.

(** ** The file system: [os] and [pathlib]

    Paths are resolved the way the kernel does it, component by
    component from the root or from the current directory, and
    [os.makedirs] is the recursive function of the standard library.  A
    path is handled as the list of the components between its slashes:
    the path [a//b/] is the list of [a], the empty component, [b] and the
    empty component, and the empty path is the list of one empty
    component. *)

Module os.

(** The limits of Linux on a component and on a whole path, in bytes. *)
Definition NAME_MAX : nat := 255.
Definition PATH_MAX : nat := 4096.

(** The components of a path between its slashes. *)
Fixpoint split_slash (s : string) : list string :=
  match s with
  | EmptyString => [EmptyString]
  | String c s' =>
      if Ascii.eqb c "/"%char then EmptyString :: split_slash s'
      else match split_slash s' with
           | hd :: tl => String c hd :: tl
           | [] => [String c EmptyString]
           end
  end.

Fixpoint has_nul (s : string) : bool :=
  match s with
  | EmptyString => false
  | String c s' => Ascii.eqb c "000"%char || has_nul s'
  end.

(** The empty path. *)
Definition is_empty (p : list string) : bool :=
  match p with [c] => String.eqb c "" | _ => false end.

(** The path starts with a slash. *)
Definition is_absolute (p : list string) : bool :=
  match p with c :: _ :: _ => String.eqb c "" | _ => false end.

(** The length of the path as a string. *)
Fixpoint path_length (p : list string) : nat :=
  match p with
  | [] => 0
  | [c] => String.length c
  | c :: rest => String.length c + 1 + path_length rest
  end.

(** The components that leave the walk where it is. *)
Definition stays (c : string) : bool := String.eqb c "" || String.eqb c ".".

Definition node_at (f : gmap (list string) node) (p : list string) : option node :=
  match p with [] => Some Dir | _ => f !! p end.

(** Walking the components [comps] from the entry at [cur]: at each
    component the entry walked from has to be a directory; an empty
    component and [.] stay there, [..] goes to what is above (the root is
    above itself), a name goes to the entry of that name, which is looked
    at when the walk goes on from it. *)
Fixpoint walk (f : gmap (list string) node) (cur comps : list string)
  : exception + list string :=
  match comps with
  | [] => inr cur
  | c :: rest =>
      match node_at f cur with
      | Some Dir =>
          if stays c then walk f cur rest
          else if String.eqb c ".." then walk f (removelast cur) rest
          else if Nat.ltb NAME_MAX (String.length c) then inl OSError
          else walk f (cur ++ [c])%list rest
      | Some (File _) => inl NotADirectoryError
      | None => inl FileNotFoundError
      end
  end.

Definition start (cwd p : list string) : list string :=
  if is_absolute p then [] else cwd.

(** [os.stat(p)]: where the path leads and what is there. *)
Definition stat (cwd : list string) (f : gmap (list string) node) (p : list string)
  : exception + (list string * node) :=
  if existsb has_nul p then inl ValueError
  else if is_empty p then inl FileNotFoundError
  else if Nat.leb PATH_MAX (path_length p) then inl OSError
  else match walk f (start cwd p) p with
       | inl e => inl e
       | inr q => match node_at f q with
                  | Some n => inr (q, n)
                  | None => inl FileNotFoundError
                  end
       end.

(** [os.path.exists(p)] and [os.path.isdir(p)]: no error leaves them. *)
Definition exists_path (cwd : list string) (f : gmap (list string) node)
    (p : list string) : bool :=
  match stat cwd f p with inr _ => true | inl _ => false end.

Definition isdir_path (cwd : list string) (f : gmap (list string) node)
    (p : list string) : bool :=
  match stat cwd f p with inr (_, Dir) => true | _ => false end.

Fixpoint drop_empty (r : list string) : list string :=
  match r with
  | c :: r' => if String.eqb c "" then drop_empty r' else r
  | [] => []
  end.

(** [os.mkdir(p)]: the slashes at the end are set aside, what is before
    the last component has to lead to a directory, and the last component
    has to be a name that is not there yet. *)
Definition mkdir (cwd : list string) (f : gmap (list string) node) (p : list string)
  : exception + gmap (list string) node :=
  if existsb has_nul p then inl ValueError
  else if is_empty p then inl FileNotFoundError
  else if Nat.leb PATH_MAX (path_length p) then inl OSError
  else match drop_empty (rev p) with
       | [] => inl FileExistsError
       | last :: before =>
           match walk f (start cwd p) (rev before) with
           | inl e => inl e
           | inr q =>
               match node_at f q with
               | Some Dir =>
                   if (String.eqb last "." || String.eqb last "..")%bool
                   then inl FileExistsError
                   else if Nat.ltb NAME_MAX (String.length last) then inl OSError
                   else match node_at f (q ++ [last])%list with
                        | Some _ => inl FileExistsError
                        | None => inr (<[(q ++ [last])%list := Dir]> f)
                        end
               | Some (File _) => inl NotADirectoryError
               | None => inl FileNotFoundError
               end
           end
       end.

(** The components are all empty: the path consists of slashes. *)
Definition all_empty (p : list string) : bool :=
  forallb (fun c => String.eqb c "") p.

(** [posixpath.split(p)]: the part before the last slash, without the
    slashes at its end unless it consists of slashes, and the part after
    it. *)
Definition psplit (p : list string) : list string * string :=
  match rev p with
  | [] => ([""], "")
  | [t] => ([""], t)
  | t :: before =>
      if all_empty before
      then (rev before ++ [""], t)%list
      else (rev (drop_empty before), t)
  end.

(** The first lines of [os.makedirs]: [head, tail = path.split(name)],
    and once more on [head] when [tail] is empty. *)
Definition split2 (name : list string) : list string * string :=
  let '(head, tail) := psplit name in
  if String.eqb tail "" then psplit head else (head, tail).

(** The subclasses of [OSError]. *)
Definition is_oserror (e : exception) : bool :=
  match e with
  | FileNotFoundError | FileExistsError | IsADirectoryError | NotADirectoryError
  | OSError => true
  | _ => false
  end.

(** The last lines of [os.makedirs] with [exist_ok=True]: [mkdir(name)],
    an [OSError] of which is dropped when [name] is a directory. *)
Definition mkdir_step (cwd : list string) (f : gmap (list string) node)
    (name : list string) : option exception * gmap (list string) node :=
  match mkdir cwd f name with
  | inr f' => (None, f')
  | inl e =>
      if (is_oserror e && isdir_path cwd f name)%bool then (None, f) else (Some e, f)
  end.

(** [os.makedirs(name, exist_ok=True)]: when [head] does not exist it is
    made first, by the function itself, a [FileExistsError] of which is
    passed over; after that a [tail] of [.] ends the call.  [room] is the
    number of nested calls the interpreter stack takes; when it is used up
    the call raises [RecursionError].  The result is the exception raised,
    if any, and the file system as the call leaves it. *)
Fixpoint makedirs_go (room : nat) (cwd : list string) (name : list string)
    (f : gmap (list string) node) : option exception * gmap (list string) node :=
  match room with
  | O => (Some RecursionError, f)
  | S room' =>
      if (negb (is_empty (fst (split2 name)))
          && negb (String.eqb (snd (split2 name)) "")
          && negb (exists_path cwd f (fst (split2 name))))%bool
      then match makedirs_go room' cwd (fst (split2 name)) f with
           | (Some FileExistsError, f1) | (None, f1) =>
               if String.eqb (snd (split2 name)) "." then (None, f1)
               else mkdir_step cwd f1 name
           | (Some e, f1) => (Some e, f1)
           end
      else mkdir_step cwd f name
  end.

(** The name ends in a [.] component, as [x/.] and [x/./] do. *)
Definition dot_ended (s : string) : bool :=
  String.eqb (snd (split2 (split_slash s))) ".".

(** The components [pathlib] keeps of a path: neither the empty ones nor
    [.]; [..] stays. *)
Definition proper (c : string) : bool := negb (stays c).

Fixpoint leading_slashes (p : list string) : nat :=
  match p with
  | c :: ((_ :: _) as rest) => if String.eqb c "" then S (leading_slashes rest) else O
  | _ => O
  end.

(** [str(pathlib.Path(p))]: the root, which is two slashes when the path
    starts with exactly two, the components kept, and [.] when nothing is
    left. *)
Definition pathlib_path (p : list string) : list string :=
  let kept := List.filter proper p in
  if is_absolute p
  then ((if Nat.eqb (leading_slashes p) 2 then [""; ""] else [""])
        ++ match kept with [] => [""] | _ => kept end)%list
  else match kept with [] => ["."] | _ => kept end.

(** [pathlib.Path(p).exists()]: [os.stat] of the path kept; a missing
    entry, a file on the way and a NUL byte give [False], any other error
    leaves the call. *)
Definition path_exists (cwd : list string) (f : gmap (list string) node)
    (p : list string) : exception + bool :=
  match stat cwd f (pathlib_path p) with
  | inr _ => inr true
  | inl OSError => inl OSError
  | inl _ => inr false
  end.

(** [open(p, "r")] and reading the file. *)
Definition open_read (cwd : list string) (f : gmap (list string) node)
    (p : list string) : exception + string :=
  match stat cwd f p with
  | inr (_, File content) => inr content
  | inr (_, Dir) => inl IsADirectoryError
  | inl e => inl e
  end.

(** *** The calls of the scripts, in a world *)

(** What is at the path [s]. *)
Definition stat_node (w : World) (s : string) : exception + node :=
  match stat (cwd w) (fs w) (split_slash s) with
  | inr (_, n) => inr n
  | inl e => inl e
  end.

(** [os.path.isdir(s)] *)
Definition isdir (w : World) (s : string) : bool :=
  isdir_path (cwd w) (fs w) (split_slash s).

(** [pathlib.Path(s).exists()] *)
Definition exists_ (s : string) : M bool :=
  fun w => (match path_exists (cwd w) (fs w) (split_slash s) with
            | inr b => Ret b
            | inl e => Raise (Exc e)
            end, w).

(** [with open(s, "r") as f: f.read()] *)
Definition read_text (s : string) : M string :=
  fun w => (match open_read (cwd w) (fs w) (split_slash s) with
            | inr text => Ret text
            | inl e => Raise (Exc e)
            end, w).

(** What [os.makedirs(s, exist_ok=True)] does to the file system [f] in
    the process of [w]. *)
Definition makedirs_fs (w : World) (s : string) (f : gmap (list string) node)
  : option exception * gmap (list string) node :=
  makedirs_go (S (stack_room w)) (cwd w) (split_slash s) f.

(** [os.makedirs(name, exist_ok=True)]: a [str] or [bytes] names a path,
    anything else is a [TypeError]. *)
Definition makedirs (name : value) : M unit :=
  note (CallMakedirs name) >>
  match name with
  | VStr s | VBytes s =>
      fun w => match makedirs_fs w s (fs w) with
               | (None, f') => (Ret tt, with_fs f' w)
               | (Some e, f') => (Raise (Exc e), with_fs f' w)
               end
  | _ => raise (Exc TypeError)
  end.

End os.
(** ** The installation *)

(** What [train] can be bound to after its resolution: [None], a function
    of one argument, or some other object. *)
Inductive pyobject : Type :=
  | ObjNone
  | ObjFunction (f : value → M unit)
  | ObjOther.

(** The [train] module of the project, once imported: its [train]
    attribute, if it has one. *)
Record train_module : Type := { train_attr : option pyobject }.

(** What the interpreter finds when the scripts import and look up things:
    the outcome of each import, the [train] module the project provides,
    the process environment and the interpreter's reading of text as
    integers.  Executing [import train] a second time
    after a first one that raised runs the module again, with an outcome
    of its own; after one that succeeded it gives the module already
    loaded. *)
Record Env : Type :=
  { import_yaml : outcome yaml_module;
    import_torch : outcome torch_module;
    import_numpy : outcome unit;
    import_train_seed : bool;              (* is train_seed.py on the module path *)
    import_train : outcome train_module;
    import_train_again : outcome train_module;
    environ : gmap string string;
    interp : Py.interpreter }.

(** An [import] statement whose outcome the installation fixes. *)
Definition import {A} (what : outcome A) : M A := fun w => (what, w).

(** ** train_seed.py *)

Module train_seed.

(** The module's global [torch]: the module, or [None]. *)
Record globals : Type := { torch : option torch_module }.

(** Executing the module: [import random], the guarded [import torch],
    [import numpy as np]. *)
Definition load (env : Env) : M globals :=
  let* torch := try_except (let* t := import (import_torch env) in ret (Some t))
                           (fun _ => ret None) in
  import (import_numpy env) >>
  ret {| torch := torch |}.

Definition set_seed (g : globals) (seed : Z) : M unit :=
  note (CallSetSeed seed) >>
  random.seed seed >>
  numpy.random_seed seed >>
  match torch g with
  | Some t =>
      try_except
        (torch_do t (ManualSeed seed) >>
         torch_do t (CudaManualSeedAll seed) >>
         torch_do t (SetCudnnDeterministic true) >>
         torch_do t (SetCudnnBenchmark false))
        (fun _ => ret tt)
  | None => ret tt
  end.

(** Running the file as a script. *)
Definition script (env : Env) : M unit :=
  let* g := load env in
  set_seed g 42 >>
  print ("Deterministic seed set to 42. torch available: "
         ++ (match torch g with Some _ => "True" | None => "False" end))%string.

End train_seed.

(** ** train_colab.py *)

Module train_colab.

(** What the name [set_seed] is bound to after the guarded import. *)
Inductive set_seed_binding : Type :=
  | FromTrainSeed (g : train_seed.globals)
  | Fallback.

Record globals : Type :=
  { yaml : yaml_module; set_seed_bound : set_seed_binding }.

(** [from train_seed import set_seed]: the module is found and executed,
    or it is not on the module path. *)
Definition import_train_seed_module (env : Env) : M train_seed.globals :=
  if import_train_seed env then train_seed.load env
  else raise (Exc ModuleNotFoundError).

(** Executing the module down to its definitions. *)
Definition load (env : Env) : M globals :=
  let* yaml := try_except (import (import_yaml env))
                 (fun e => print "PyYAML is required. Install with: pip install pyyaml" >>
                           raise (Exc e)) in
  let* bound := try_except
                  (let* g := import_train_seed_module env in
                   ret (FromTrainSeed g))
                  (fun _ => ret Fallback) in
  ret {| yaml := yaml; set_seed_bound := bound |}.

(** A call of [set_seed], through whichever definition the name has. *)
Definition set_seed (g : globals) (seed : Z) : M unit :=
  match set_seed_bound g with
  | FromTrainSeed ts => train_seed.set_seed ts seed
  | Fallback =>
      note (CallSetSeed seed) >>
      print "train_seed.set_seed not available; skipping seed setup"
  end.

Definition load_config (g : globals) (path : string) : M value :=
  let* text := os.read_text path in
  lift (safe_load (yaml g) text).

(** The two imports at the end of [main] that look for [train]. *)
Definition resolve_train (env : Env) : M pyobject :=
  try_except
    (note (CallImport "from train import train") >>
     let* m := import (import_train env) in
     match train_attr m with
     | Some f => ret f
     | None => raise (Exc ImportError)
     end)
    (fun _ =>
       try_except
         (note (CallImport "import train") >>
          let* m := import (match import_train env with
                            | Ret m => Ret m
                            | Raise _ => import_train_again env
                            end) in
          ret (match train_attr m with Some f => f | None => ObjNone end))
         (fun _ => ret ObjNone)).


(** [train(config)] *)
Definition call_train (train : pyobject) (config : value) : M unit :=
  match train with
  | ObjFunction f => note (CallTrain config) >> f config
  | _ => raise (Exc TypeError)
  end.

Definition default_config : string := "configs/banksformer_free.yaml".

Definition main (env : Env) (g : globals) (config_path : string) : M unit :=
  logging.basicConfig INFO >>
  let* found := os.exists_ config_path in
  (if negb found
   then logging.error "Config file not found: %s" [ArgStr config_path] >> sys.exit 2
   else ret tt) >>
  let* config := load_config g config_path in
  let* seed := lift (get config "seed" VNone) in
  (if negb (is_none seed)
   then try_except
          (let* n := lift (int (interp env) seed) in
           set_seed g n >>
           logging.info "Set deterministic seed: %s" [ArgValue seed])
          (fun e => logging.warning "Failed to set seed: %s" [ArgExc e])
   else ret tt) >>
  let* paths := lift (get config "paths" (VDict ∅ [])) in
  let* ckpt_dir := lift (get paths "checkpoints" (VStr "checkpoints")) in
  let* logs_dir := lift (get paths "logs" (VStr "logs")) in
  os.makedirs ckpt_dir >>
  os.makedirs logs_dir >>
  let* resume := lift (get config "resume" (VBool false)) in
  (if truthy resume
   then logging.info
          "Resume enabled - training will attempt to restore from checkpoints in %s"
          [ArgValue ckpt_dir]
   else ret tt) >>
  let* train := resolve_train env in
  (match train with
   | ObjNone =>
       logging.error
         "Could not import a `train(config)` function. Please ensure your training entrypoint exposes `train(config)`."
         [] >>
       sys.exit 3
   | _ => ret tt
   end) >>
  logging.info "Starting training with config: %s" [ArgStr config_path] >>
  call_train train config.

(** *** The steps of [main]

    The same statements, cut where the description of [main] cuts them;
    [main_steps] below shows that [main] is their sequence. *)

Definition locate_config (config_path : string) : M unit :=
  logging.basicConfig INFO >>
  let* found := os.exists_ config_path in
  if negb found
  then logging.error "Config file not found: %s" [ArgStr config_path] >> sys.exit 2
  else ret tt.

Definition seed_step (env : Env) (g : globals) (config : value) : M unit :=
  let* seed := lift (get config "seed" VNone) in
  if negb (is_none seed)
  then try_except
         (let* n := lift (int (interp env) seed) in
          set_seed g n >>
          logging.info "Set deterministic seed: %s" [ArgValue seed])
         (fun e => logging.warning "Failed to set seed: %s" [ArgExc e])
  else ret tt.

Definition ensure_directories (config : value) : M value :=
  let* paths := lift (get config "paths" (VDict ∅ [])) in
  let* ckpt_dir := lift (get paths "checkpoints" (VStr "checkpoints")) in
  let* logs_dir := lift (get paths "logs" (VStr "logs")) in
  os.makedirs ckpt_dir >>
  os.makedirs logs_dir >>
  ret ckpt_dir.

Definition resume_notice (config ckpt_dir : value) : M unit :=
  let* resume := lift (get config "resume" (VBool false)) in
  if truthy resume
  then logging.info
         "Resume enabled - training will attempt to restore from checkpoints in %s"
         [ArgValue ckpt_dir]
  else ret tt.

Definition dispatch (env : Env) (config_path : string) (config : value) : M unit :=
  let* train := resolve_train env in
  (match train with
   | ObjNone =>
       logging.error
         "Could not import a `train(config)` function. Please ensure your training entrypoint exposes `train(config)`."
         [] >>
       sys.exit 3
   | _ => ret tt
   end) >>
  logging.info "Starting training with config: %s" [ArgStr config_path] >>
  call_train train config.

Definition main_by_steps (env : Env) (g : globals) (config_path : string) : M unit :=
  locate_config config_path >>
  let* config := load_config g config_path in
  seed_step env g config >>
  let* ckpt_dir := ensure_directories config in
  resume_notice config ckpt_dir >>
  dispatch env config_path config.

(** Running the file as a script. *)
Definition script (env : Env) : M unit :=
  let* g := load env in
  main env g (match environ env !! "BANKSFORMER_CONFIG" with
              | Some cfg => cfg
              | None => default_config
              end).

End train_colab.

(** The world after the two unguarded seeding calls of [set_seed]. *)
Definition seeded (seed : Z) (w : World) : World :=
  with_np_random (fresh seed)
    (with_calls (calls w ++ [CallSetSeed seed; CallRandomSeed seed; CallNumpySeed seed])
       (with_py_random (fresh (Z.abs seed)) w)).

(** ** Notions the properties are stated with *)

(** The directory a configuration names, in the words of the data model:
    the entry [key] of the mapping [paths], and [default] when the key or
    the whole [paths] mapping is absent.  Nothing is described for a
    [paths] entry that is not a mapping. *)
Definition described_dir (m : gmap string value) (key default : string) : option value :=
  match m !! "paths" with
  | None => Some (VStr default)
  | Some (VDict p _) =>
      Some (match p !! key with Some v => v | None => VStr default end)
  | Some _ => None
  end.

(** A valid configuration, in the process of [w]: a mapping whose
    directories are the strings [ckpt] and [logs], neither ending in a
    [.] component, both of which [os.makedirs] makes or finds, one after
    the other. *)
Definition valid_configuration (w : World) (config : value) (ckpt logs : string) : Prop :=
  ∃ m others f1 f2,
    config = VDict m others
    ∧ described_dir m "checkpoints" "checkpoints" = Some (VStr ckpt)
    ∧ described_dir m "logs" "logs" = Some (VStr logs)
    ∧ os.dot_ended ckpt = false
    ∧ os.dot_ended logs = false
    ∧ os.makedirs_fs w ckpt (fs w) = (None, f1)
    ∧ os.makedirs_fs w logs f1 = (None, f2).

(** The object a module gives for the name [train] is not a callable: it
    has no such attribute, or the attribute is [None]. *)
Definition lacks_train (m : train_module) : Prop :=
  match train_attr m with
  | None | Some ObjNone => True
  | Some _ => False
  end.

(** No [train] callable can be resolved: the module that is imported,
    at the first attempt or after a failed one at the second, lacks it, or
    both imports fail with an exception. *)
Definition no_train (env : Env) : Prop :=
  match import_train env with
  | Ret m => lacks_train m
  | Raise (Exc _) =>
      match import_train_again env with
      | Ret m => lacks_train m
      | Raise (Exc _) => True
      | Raise (SystemExit _) => False
      end
  | Raise (SystemExit _) => False
  end.

(** The world once [logging.basicConfig(level=logging.INFO)] has run. *)
Definition configured (w : World) : World :=
  match log_config w with
  | None => with_log_config (Some INFO) w
  | Some _ => w
  end.

(** The configuration is read from its file: [Path(config_path).exists()]
    is true, the file opens and is read, and the parser gives [config]
    for its text. *)
Definition config_file_holds (g : train_colab.globals) (w : World)
    (config_path : string) (config : value) : Prop :=
  fst (os.exists_ config_path w) = Ret true
  ∧ ∃ text, fst (os.read_text config_path w) = Ret text
            ∧ safe_load (train_colab.yaml g) text = inr config.

(** What [main] does after its seeding step: the directories, the resume
    notice, the resolution of [train] and the dispatch. *)
Definition after_seed (env : Env) (config_path : string) (config : value) : M unit :=
  let* ckpt_dir := train_colab.ensure_directories config in
  train_colab.resume_notice config ckpt_dir >>
  train_colab.dispatch env config_path config.

(** The world after a call of the fallback [set_seed]. *)
Definition fallback_called (seed : Z) (w : World) : World :=
  with_stdout (stdout w ++ ["train_seed.set_seed not available; skipping seed setup"])
    (with_calls (calls w ++ [CallSetSeed seed]) w).

(** The world after the import statements [whats] were executed. *)
Definition tried (whats : list string) (w : World) : World :=
  with_calls (calls w ++ map CallImport whats) w.

(** The [train] attribute of a module, [None] when it has none:
    [getattr(module, "train", None)]. *)
Definition getattr_train (m : train_module) : pyobject :=
  match train_attr m with Some f => f | None => ObjNone end.

(** The records [main] logs. *)
Definition config_not_found (config_path : string) : log_record :=
  {| rec_level := ERROR; rec_msg := "Config file not found: %s";
     rec_args := [ArgStr config_path] |}.

Definition train_not_found : log_record :=
  {| rec_level := ERROR;
     rec_msg := "Could not import a `train(config)` function. Please ensure your training entrypoint exposes `train(config)`.";
     rec_args := [] |}.

Definition seed_set (seed : value) : log_record :=
  {| rec_level := INFO; rec_msg := "Set deterministic seed: %s";
     rec_args := [ArgValue seed] |}.

Definition seed_failed (e : exception) : log_record :=
  {| rec_level := WARNING; rec_msg := "Failed to set seed: %s";
     rec_args := [ArgExc e] |}.

(** The four settings [set_seed] asks torch for, in the order it asks. *)
Definition torch_requests (seed : Z) : list torch_action :=
  [ManualSeed seed; CudaManualSeedAll seed;
   SetCudnnDeterministic true; SetCudnnBenchmark false].

(** The line [train_seed.py] prints when it is run as a script. *)
Definition availability_line (g : train_seed.globals) : string :=
  ("Deterministic seed set to 42. torch available: "
   ++ (match train_seed.torch g with Some _ => "True" | None => "False" end))%string.

Definition resume_enabled (ckpt_dir : value) : log_record :=
  {| rec_level := INFO;
     rec_msg := "Resume enabled - training will attempt to restore from checkpoints in %s";
     rec_args := [ArgValue ckpt_dir] |}.

Definition starting_training (config_path : string) : log_record :=
  {| rec_level := INFO; rec_msg := "Starting training with config: %s";
     rec_args := [ArgStr config_path] |}.

(** The value is a mapping. *)
Definition is_mapping (v : value) : bool :=
  match v with VDict _ _ => true | _ => false end.

(** The value, when it names a path, does not end in a [.] component. *)
Definition plain_end (v : value) : bool :=
  match v with
  | VStr s | VBytes s => negb (os.dot_ended s)
  | _ => true
  end.

(** The file system [f'] has every entry of [f], unchanged. *)
Definition extends (f f' : gmap (list string) node) : Prop :=
  ∀ q n, f !! q = Some n → f' !! q = Some n.

(** What the directory step of [main] did between the worlds [ws] and
    [wd]: the two calls of [os.makedirs], in this order, after which both
    paths are directories and nothing that was there is gone; the rest of
    the world is as it was. *)
Definition directories_made (ws wd : World) (ckpt logs : string) : Prop :=
  calls wd = (calls ws ++ [CallMakedirs (VStr ckpt); CallMakedirs (VStr logs)])%list
  ∧ os.isdir wd ckpt = true
  ∧ os.isdir wd logs = true
  ∧ extends (fs ws) (fs wd)
  ∧ log wd = log ws
  ∧ py_random wd = py_random ws
  ∧ np_random wd = np_random ws.

(** The resume notice between the worlds [wd] and [wr]: the record
    "Resume enabled", naming the checkpoint directory, exactly when the
    [resume] entry is truthy, and nothing else. *)
Definition resume_noted (config : value) (ckpt : string) (wd wr : World) : Prop :=
  ∃ m others,
    config = VDict m others
    ∧ wr = if truthy (match m !! "resume" with Some v => v | None => VBool false end)
           then with_log (log wd ++ [resume_enabled (VStr ckpt)]) wd
           else wd.

(** The result [r] of [main] is the one of its dispatch from the world
    [wr]: the import [from train import train] is made first, and then,
    by what the resolution gives: for [None] the error is logged and the
    process exits with status 3; for a function, "Starting training" is
    logged and the result is the one of the function, called with the
    configuration; for another object that call is a [TypeError]; and
    what is raised through the resolution is raised by [main]. *)
Definition dispatched (env : Env) (config_path : string) (config : value)
    (wr : World) (r : outcome unit * World) : Prop :=
  ∃ more,
    let wi := tried ("from train import train" :: more) wr in
    let wt := with_log (log wi ++ [starting_training config_path]) wi in
    match fst (train_colab.resolve_train env wr) with
    | Ret ObjNone =>
        r = (Raise (SystemExit 3), with_log (log wi ++ [train_not_found]) wi)
    | Ret (ObjFunction f) =>
        r = f config (with_calls (calls wt ++ [CallTrain config]) wt)
    | Ret ObjOther => r = (Raise (Exc TypeError), wt)
    | Raise x => r = (Raise x, wi)
    end.

(** The run of [main] with result [r] goes on from the world [ws], in
    which its seeding step ended, with the creation of the directories
    and the dispatch: it is the rest of [main] run from [ws], and for a
    valid configuration both directories are made and the dispatch is
    reached. *)
Definition carries_on (env : Env) (config_path : string) (config : value)
    (ws : World) (r : outcome unit * World) : Prop :=
  r = after_seed env config_path config ws
  ∧ ∀ ckpt logs,
      valid_configuration ws config ckpt logs →
      ∃ wd wr,
        train_colab.ensure_directories config ws = (Ret (VStr ckpt), wd)
        ∧ directories_made ws wd ckpt logs
        ∧ resume_noted config ckpt wd wr
        ∧ dispatched env config_path config wr r.

(** ** Sample installations and worlds *)

Module Sample.

(** A process that has just started, in the root directory: both
    generators seeded by the interpreter from the operating system,
    nothing logged or printed, and on disk a configuration file only. *)
Definition boot : World :=
  {| py_random := {| rng_origin := OsEntropy 1729; rng_drawn := 0 |};
     np_random := {| rng_origin := OsEntropy 4104; rng_drawn := 0 |};
     torch_done := [];
     fs := {[ ["configs"] := Dir;
              ["configs"; "banksformer_free.yaml"] := File "seed: 42" ]};
     log_config := None;
     log := [];
     stdout := [];
     calls := [];
     cwd := [];
     stack_room := 990 |}.

(** A torch that raises when it is asked to seed CUDA. *)
Definition torch_cpu_only : torch_module :=
  {| refuses := fun a _ => match a with
                           | CudaManualSeedAll _ => Some RuntimeError
                           | _ => None
                           end |}.

(** An interpreter that reads text of ASCII characters as CPython 3.11
    does and takes no other text for an integer. *)
Definition ascii_interpreter : Py.interpreter :=
  {| int_of_str := Py.ascii_literal; int_of_bytes := Py.ascii_literal |}.

(** A parser that answers every document with the same value. *)
Definition yaml_giving (config : value) : yaml_module :=
  {| safe_load := fun _ => inr config |}.

(** An installation with numpy and PyYAML, without torch and without a
    [train] module. *)
Definition bare (config : value) : Env :=
  {| import_yaml := Ret (yaml_giving config);
     import_torch := Raise (Exc ModuleNotFoundError);
     import_numpy := Ret tt;
     import_train_seed := true;
     import_train := Raise (Exc ModuleNotFoundError);
     import_train_again := Raise (Exc ModuleNotFoundError);
     environ := ∅;
     interp := ascii_interpreter |}.

(** The same without numpy, so that [train_seed] cannot be imported. *)
Definition without_numpy (config : value) : Env :=
  {| import_yaml := Ret (yaml_giving config);
     import_torch := Raise (Exc ModuleNotFoundError);
     import_numpy := Raise (Exc ModuleNotFoundError);
     import_train_seed := true;
     import_train := Raise (Exc ModuleNotFoundError);
     import_train_again := Raise (Exc ModuleNotFoundError);
     environ := ∅;
     interp := ascii_interpreter |}.

(** A [train] collaborator that prints a line. *)
Definition train_stub : pyobject :=
  ObjFunction (fun _ => print "training").

(** The bare installation with a project that provides [train]. *)
Definition with_train (config : value) : Env :=
  {| import_yaml := Ret (yaml_giving config);
     import_torch := Raise (Exc ModuleNotFoundError);
     import_numpy := Ret tt;
     import_train_seed := true;
     import_train := Ret {| train_attr := Some train_stub |};
     import_train_again := Ret {| train_attr := Some train_stub |};
     environ := ∅;
     interp := ascii_interpreter |}.

(** A project whose [train] module binds the name [train] to something
    that is not a function. *)
Definition with_odd_train (config : value) : Env :=
  {| import_yaml := Ret (yaml_giving config);
     import_torch := Raise (Exc ModuleNotFoundError);
     import_numpy := Ret tt;
     import_train_seed := true;
     import_train := Ret {| train_attr := Some ObjOther |};
     import_train_again := Ret {| train_attr := Some ObjOther |};
     environ := ∅;
     interp := ascii_interpreter |}.

(** A torch that accepts every setting. *)
Definition torch_accepting : torch_module :=
  {| refuses := fun _ _ => None |}.

(** The starting process with a regular file where the log directory is
    to be. *)
Definition boot_logs_taken : World :=
  with_fs (<[ ["logs"] := File "notes" ]> (fs boot)) boot.

(** An installation without PyYAML. *)
Definition without_yaml : Env :=
  {| import_yaml := Raise (Exc ModuleNotFoundError);
     import_torch := Raise (Exc ModuleNotFoundError);
     import_numpy := Ret tt;
     import_train_seed := true;
     import_train := Raise (Exc ModuleNotFoundError);
     import_train_again := Raise (Exc ModuleNotFoundError);
     environ := ∅;
     interp := ascii_interpreter |}.

(** A parser that rejects every document. *)
Definition yaml_rejecting : yaml_module :=
  {| safe_load := fun _ => inl YAMLError |}.

(** [train_colab] as it is loaded on [bare] and on [without_numpy]. *)
Definition loaded (config : value) : train_colab.globals :=
  {| train_colab.yaml := yaml_giving config;
     train_colab.set_seed_bound :=
       train_colab.FromTrainSeed {| train_seed.torch := None |} |}.

Definition loaded_fallback (config : value) : train_colab.globals :=
  {| train_colab.yaml := yaml_giving config;
     train_colab.set_seed_bound := train_colab.Fallback |}.

(** The same process started in the directory [/content], which holds a
    regular file [notes] and a directory [runs]. *)
Definition colab : World :=
  {| py_random := {| rng_origin := OsEntropy 1729; rng_drawn := 0 |};
     np_random := {| rng_origin := OsEntropy 4104; rng_drawn := 0 |};
     torch_done := [];
     fs := {[ ["content"] := Dir;
              ["content"; "configs"] := Dir;
              ["content"; "configs"; "banksformer_free.yaml"] := File "seed: 42";
              ["content"; "notes"] := File "to do";
              ["content"; "runs"] := Dir ]};
     log_config := None;
     log := [];
     stdout := [];
     calls := [];
     cwd := ["content"];
     stack_room := 990 |}.

(** A configuration with directories of its own. *)
Definition custom_paths : gmap string value :=
  {[ "paths" := VDict {[ "checkpoints" := VStr "runs/exp1/ckpt";
                         "logs" := VStr "/content/runs/logs" ]} [] ]}.

End Sample.

(** * Properties *)

(** ** Sequencing *)

Lemma bind_ret {A B} (a : A) (k : A → M B) w : bind (ret a) k w = k a w.
Proof. reflexivity. Qed.

Lemma bind_assoc {A B C} (m : M A) (k : A → M B) (h : B → M C) w :
  bind (bind m k) h w = bind m (fun a => bind (k a) h) w.
Proof. unfold bind. destruct (m w) as [[a|r] w']; reflexivity. Qed.

Lemma bind_ext {A B} (m : M A) (k k' : A → M B) w :
  (∀ a w', k a w' = k' a w') → bind m k w = bind m k' w.
Proof. intros H. unfold bind. destruct (m w) as [[a|r] w']; auto. Qed.

Lemma bind_returns {A B} (m : M A) (k : A → M B) w a w' :
  m w = (Ret a, w') → bind m k w = k a w'.
Proof. intros H. unfold bind. now rewrite H. Qed.

Lemma bind_raises {A B} (m : M A) (k : A → M B) w r w' :
  m w = (Raise r, w') → bind m k w = (Raise r, w').
Proof. intros H. unfold bind. now rewrite H. Qed.

(** ** The seeding function *)

Section SetSeed.

Import train_seed.

Lemma seed_in_range_iff seed :
  numpy.seed_in_range seed = true ↔ 0 ≤ seed < 2 ^ 32.
Proof. unfold numpy.seed_in_range. rewrite andb_true_iff. lia. Qed.

(** The guarded torch block never raises and touches the torch settings
    only. *)
Lemma torch_block (t : torch_module) (seed : Z) (w : World) :
  ∃ done,
    try_except
      (torch_do t (ManualSeed seed) >>
       torch_do t (CudaManualSeedAll seed) >>
       torch_do t (SetCudnnDeterministic true) >>
       torch_do t (SetCudnnBenchmark false))
      (fun _ => ret tt) w
    = (Ret tt, with_torch_done done w).
Proof.
  destruct w; unfold try_except, bind, torch_do, ret; simpl.
  repeat match goal with
         | |- context [refuses t ?a ?d] => destruct (refuses t a d); simpl
         end;
    eexists; reflexivity.
Qed.

(** Inside numpy's range, [set_seed] returns normally having seeded both
    generators, whatever torch is and does. *)
Lemma set_seed_returns g seed w :
  0 ≤ seed < 2 ^ 32 →
  ∃ done, set_seed g seed w = (Ret tt, with_torch_done done (seeded seed w)).
Proof.
  intros Hr. apply seed_in_range_iff in Hr.
  unfold set_seed, numpy.random_seed, random.seed, note, modify, bind at 1 2 3 4 5; simpl.
  rewrite Hr; simpl.
  destruct (torch g) as [t|].
  - destruct (torch_block t seed
               (with_np_random (fresh seed)
                  (with_calls ((calls w ++ [CallSetSeed seed]) ++ [CallRandomSeed seed]
                                 ++ [CallNumpySeed seed])%list
                     (with_py_random (fresh (Z.abs seed)) w)))) as [done Hd].
    exists done. unfold seeded.
    rewrite <- !app_assoc in Hd. simpl in Hd.
    destruct w; simpl in *. rewrite <- !app_assoc. simpl. exact Hd.
  - exists (torch_done w). unfold seeded, ret. destruct w; simpl.
    rewrite <- !app_assoc. reflexivity.
Qed.

End SetSeed.

Section SetSeedClaims.

Import train_seed.

(** Outside numpy's range [set_seed] seeds [random], then ends with the
    [ValueError] of [numpy.random.seed]: the numpy generator and torch are
    left as they were. *)
Lemma set_seed_rejected g seed w :
  ¬ (0 ≤ seed < 2 ^ 32) →
  set_seed g seed w
  = (Raise (Exc ValueError),
     with_calls (calls w ++ [CallSetSeed seed; CallRandomSeed seed; CallNumpySeed seed])
       (with_py_random (fresh (Z.abs seed)) w)).
Proof.
  intros Hr. rewrite <- seed_in_range_iff in Hr. apply not_true_is_false in Hr.
  unfold set_seed, numpy.random_seed, random.seed, note, modify, bind; simpl.
  rewrite Hr; simpl. unfold raise. destruct w; simpl.
  rewrite <- !app_assoc. reflexivity.
Qed.

(** C1, as amended: for every seed that numpy accepts, 0 <= seed < 2^32,
    and whatever torch is bound to and whichever of its calls fail,
    [set_seed] returns without raising, and after it both [random.seed]
    and [numpy.random.seed] have been performed: the two calls were made
    in that order and each generator is the one the seed initialises. *)
Theorem set_seed_completes (g : globals) (seed : Z) (w : World) :
  0 ≤ seed < 2 ^ 32 →
  ∃ w', set_seed g seed w = (Ret tt, w')
        ∧ py_random w' = fresh (Z.abs seed)
        ∧ np_random w' = fresh seed
        ∧ calls w' = (calls w ++ [CallSetSeed seed; CallRandomSeed seed; CallNumpySeed seed])%list.
Proof.
  intros Hr. destruct (set_seed_returns g seed w Hr) as [done Hd].
  eexists; split; [exact Hd|]. now destruct w.
Qed.

Lemma set_seed_completes_witness :
  0 ≤ 42 < 2 ^ 32 ∧
  ∃ w', set_seed {| torch := Some Sample.torch_cpu_only |} 42 Sample.boot = (Ret tt, w')
        ∧ py_random w' = fresh (Z.abs 42)
        ∧ np_random w' = fresh 42
        ∧ calls w' = (calls Sample.boot ++ [CallSetSeed 42; CallRandomSeed 42; CallNumpySeed 42])%list.
Proof.
  split; [lia|].
  apply (set_seed_completes {| torch := Some Sample.torch_cpu_only |} 42 Sample.boot). lia.
Defined.

(** C1 as stated fails at a negative seed: [set_seed(-1)] raises
    [ValueError], and the numpy generator is not seeded. *)
Lemma set_seed_raises_at_minus_one :
  fst (set_seed {| torch := None |} (-1) Sample.boot) = Raise (Exc ValueError)
  ∧ np_random (snd (set_seed {| torch := None |} (-1) Sample.boot))
    = np_random Sample.boot
  ∧ rng_origin (np_random Sample.boot) = OsEntropy 4104.
Proof. repeat split. Qed.

(** C4, as amended: for every seed with 0 <= seed < 2^32, two calls of
    [set_seed] with that seed, from whatever states, both return and leave
    [random]'s generator in one and the same state and numpy's generator
    in one and the same state, so that the numbers drawn after each call
    are the same. *)
Theorem set_seed_twice (g : globals) (seed : Z) (w1 w2 : World)
    (out : origin → nat → Z) (n : nat) :
  0 ≤ seed < 2 ^ 32 →
  fst (set_seed g seed w1) = Ret tt
  ∧ fst (set_seed g seed w2) = Ret tt
  ∧ py_random (snd (set_seed g seed w1)) = py_random (snd (set_seed g seed w2))
  ∧ np_random (snd (set_seed g seed w1)) = np_random (snd (set_seed g seed w2))
  ∧ fst (draws out n (py_random (snd (set_seed g seed w1))))
    = fst (draws out n (py_random (snd (set_seed g seed w2))))
  ∧ fst (draws out n (np_random (snd (set_seed g seed w1))))
    = fst (draws out n (np_random (snd (set_seed g seed w2)))).
Proof.
  intros Hr.
  destruct (set_seed_returns g seed w1 Hr) as [d1 H1].
  destruct (set_seed_returns g seed w2 Hr) as [d2 H2].
  rewrite H1, H2. repeat split.
Qed.

Lemma set_seed_twice_witness :
  0 ≤ 7 < 2 ^ 32
  ∧ fst (set_seed {| torch := None |} 7 Sample.boot) = Ret tt
  ∧ fst (set_seed {| torch := None |} 7 (with_np_random (fresh 99) Sample.boot)) = Ret tt
  ∧ py_random (snd (set_seed {| torch := None |} 7 Sample.boot))
    = py_random (snd (set_seed {| torch := None |} 7
                        (with_np_random (fresh 99) Sample.boot)))
  ∧ np_random (snd (set_seed {| torch := None |} 7 Sample.boot))
    = np_random (snd (set_seed {| torch := None |} 7
                        (with_np_random (fresh 99) Sample.boot)))
  ∧ fst (draws (fun _ k => Z.of_nat k) 3
           (py_random (snd (set_seed {| torch := None |} 7 Sample.boot))))
    = fst (draws (fun _ k => Z.of_nat k) 3
             (py_random (snd (set_seed {| torch := None |} 7
                                (with_np_random (fresh 99) Sample.boot)))))
  ∧ fst (draws (fun _ k => Z.of_nat k) 3
           (np_random (snd (set_seed {| torch := None |} 7 Sample.boot))))
    = fst (draws (fun _ k => Z.of_nat k) 3
             (np_random (snd (set_seed {| torch := None |} 7
                                (with_np_random (fresh 99) Sample.boot))))).
Proof.
  split; [lia|].
  apply (set_seed_twice {| torch := None |} 7 Sample.boot
           (with_np_random (fresh 99) Sample.boot) (fun _ k => Z.of_nat k) 3).
  lia.
Defined.

(** C4 as stated fails at a negative seed: after [set_seed(-1)], one number
    drawn from numpy and [set_seed(-1)] again, numpy's generator is not in
    the state the first call left it in. *)
Lemma set_seed_twice_differs_at_minus_one :
  let first := snd (set_seed {| torch := None |} (-1) Sample.boot) in
  let drawn := with_np_random (snd (draw (fun _ _ => 0) (np_random first))) first in
  let second := snd (set_seed {| torch := None |} (-1) drawn) in
  np_random first ≠ np_random second.
Proof. simpl. discriminate. Qed.

(** Without torch, [set_seed] is the two seeding calls and nothing else. *)
Lemma set_seed_without_torch g seed w :
  torch g = None → 0 ≤ seed < 2 ^ 32 →
  set_seed g seed w = (Ret tt, seeded seed w).
Proof.
  intros Ht Hr. apply seed_in_range_iff in Hr.
  unfold set_seed, numpy.random_seed, random.seed, note, modify, bind; simpl.
  rewrite Hr, Ht; simpl. unfold seeded, ret. destruct w; simpl.
  rewrite <- !app_assoc. reflexivity.
Qed.

(** C9, as amended: when [import torch] fails as the module is loaded, the
    module's global [torch] is [None] from then on; [set_seed] reads that
    global and imports nothing, so that for every seed with
    0 <= seed < 2^32 and in every later state a call returns without
    raising, with both generators seeded and no torch setting made. *)
Theorem torch_absence_detected_at_load (env : Env) (e : exception) (w0 : World) :
  import_torch env = Raise (Exc e) →
  import_numpy env = Ret tt →
  ∃ g, load env w0 = (Ret g, w0)
       ∧ torch g = None
       ∧ ∀ seed w, 0 ≤ seed < 2 ^ 32 →
           ∃ w', set_seed g seed w = (Ret tt, w')
                 ∧ py_random w' = fresh (Z.abs seed)
                 ∧ np_random w' = fresh seed
                 ∧ torch_done w' = torch_done w.
Proof.
  intros Ht Hn. exists {| torch := None |}. split; [|split].
  - unfold load, try_except, import, bind, ret. rewrite Ht, Hn. reflexivity.
  - reflexivity.
  - intros seed w Hr. exists (seeded seed w). split.
    + now apply set_seed_without_torch.
    + now destruct w.
Qed.

Lemma torch_absence_detected_at_load_witness :
  import_torch (Sample.bare VNone) = Raise (Exc ModuleNotFoundError)
  ∧ import_numpy (Sample.bare VNone) = Ret tt
  ∧ ∃ g, load (Sample.bare VNone) Sample.boot = (Ret g, Sample.boot)
         ∧ torch g = None
         ∧ ∀ seed w, 0 ≤ seed < 2 ^ 32 →
             ∃ w', set_seed g seed w = (Ret tt, w')
                   ∧ py_random w' = fresh (Z.abs seed)
                   ∧ np_random w' = fresh seed
                   ∧ torch_done w' = torch_done w.
Proof.
  split; [reflexivity|]. split; [reflexivity|].
  apply (torch_absence_detected_at_load (Sample.bare VNone) ModuleNotFoundError Sample.boot);
    reflexivity.
Defined.

(** C9 as stated fails at a seed of 2^32: with torch absent since load
    time, [set_seed(4294967296)] raises [ValueError] and leaves numpy's
    generator unseeded. *)
Lemma set_seed_without_torch_raises_at_2_32 :
  ∃ g, load (Sample.bare VNone) Sample.boot = (Ret g, Sample.boot)
       ∧ torch g = None
       ∧ fst (set_seed g 4294967296 Sample.boot) = Raise (Exc ValueError)
       ∧ np_random (snd (set_seed g 4294967296 Sample.boot)) = np_random Sample.boot.
Proof. exists {| torch := None |}. repeat split. Qed.

End SetSeedClaims.

(** ** The steps of [main] *)

Section MainSteps.

Import train_colab.

Lemma main_steps env g path w :
  main env g path w = main_by_steps env g path w.
Proof.
  unfold main, main_by_steps, locate_config, seed_step, ensure_directories,
    resume_notice, dispatch.
  rewrite !bind_assoc. apply bind_ext; intros _ w1.
  rewrite !bind_assoc. apply bind_ext; intros found w2.
  apply bind_ext; intros _ w3.
  apply bind_ext; intros config w4.
  rewrite !bind_assoc. apply bind_ext; intros seed w5.
  apply bind_ext; intros _ w6.
  rewrite !bind_assoc. apply bind_ext; intros paths w7.
  rewrite !bind_assoc. apply bind_ext; intros ckpt w8.
  rewrite !bind_assoc. apply bind_ext; intros logs w9.
  rewrite !bind_assoc. apply bind_ext; intros _ w10.
  rewrite !bind_assoc. apply bind_ext; intros _ w11.
  rewrite bind_ret, bind_assoc. reflexivity.
Qed.

Lemma locate_config_found path w :
  fst (os.exists_ path w) = Ret true →
  locate_config path w = (Ret tt, configured w).
Proof.
  unfold locate_config, os.exists_, logging.basicConfig, modify, bind, configured; simpl.
  intros H.
  destruct (log_config w) eqn:Hc; simpl;
    destruct (os.path_exists (cwd w) (fs w) (os.split_slash path)) as [e|[|]] eqn:Hl;
    simpl in *; try discriminate; rewrite ?Hl; reflexivity.
Qed.

Lemma locate_config_missing path w :
  fst (os.exists_ path w) = Ret false →
  locate_config path w
  = (Raise (SystemExit 2),
     with_log (log w ++ [config_not_found path]) (configured w)).
Proof.
  unfold locate_config, os.exists_, logging.basicConfig, logging.error, logging.emit,
    modify, bind, sys.exit, raise, configured; simpl.
  intros H.
  destruct (log_config w) eqn:Hc; simpl;
    destruct (os.path_exists (cwd w) (fs w) (os.split_slash path)) as [e|[|]] eqn:Hl;
    simpl in *; try discriminate; rewrite ?Hl; simpl; destruct w; reflexivity.
Qed.



End MainSteps.

(** ** The file system *)

Section FileSystem.

Import os.
Local Open Scope list_scope.

Implicit Types (f : gmap (list string) node) (p q cur comps : list string).

Lemma extends_refl f : extends f f.
Proof. intros q n H. exact H. Qed.

Lemma extends_trans f1 f2 f3 : extends f1 f2 → extends f2 f3 → extends f1 f3.
Proof. intros H1 H2 q n H. apply H2, H1, H. Qed.

Lemma node_at_extends f f' p n :
  extends f f' → node_at f p = Some n → node_at f' p = Some n.
Proof. intros H. destruct p; simpl; [auto|apply H]. Qed.

Lemma node_at_snoc f q c : node_at f (q ++ [c]) = f !! (q ++ [c]).
Proof. destruct q; reflexivity. Qed.

Lemma walk_app f comps1 :
  ∀ cur comps2,
    walk f cur (comps1 ++ comps2)
    = match walk f cur comps1 with
      | inl e => inl e
      | inr q => walk f q comps2
      end.
Proof.
  induction comps1 as [|c comps1 IH]; intros cur comps2; simpl; [reflexivity|].
  destruct (node_at f cur) as [[content|]|]; try reflexivity.
  destruct (stays c); [apply IH|].
  destruct (String.eqb c ".."); [apply IH|].
  destruct (Nat.ltb NAME_MAX (String.length c)); [reflexivity|apply IH].
Qed.

(** A walk that arrives still arrives, at the same place, when entries
    are added. *)
Lemma walk_extends f f' comps :
  extends f f' → ∀ cur q, walk f cur comps = inr q → walk f' cur comps = inr q.
Proof.
  intros He. induction comps as [|c comps IH]; intros cur q; simpl; [auto|].
  destruct (node_at f cur) as [[content|]|] eqn:Hn; try discriminate.
  rewrite (node_at_extends f f' cur Dir He Hn).
  destruct (stays c); [apply IH|].
  destruct (String.eqb c ".."); [apply IH|].
  destruct (Nat.ltb NAME_MAX (String.length c)); [discriminate|apply IH].
Qed.

Lemma stat_extends cwd f f' p x :
  extends f f' → stat cwd f p = inr x → stat cwd f' p = inr x.
Proof.
  intros He. unfold stat.
  destruct (existsb has_nul p); [discriminate|].
  destruct (is_empty p); [discriminate|].
  destruct (Nat.leb PATH_MAX (path_length p)); [discriminate|].
  destruct (walk f (start cwd p) p) as [e|q] eqn:Hw; [discriminate|].
  rewrite (walk_extends f f' p He _ _ Hw).
  destruct (node_at f q) as [n|] eqn:Hn; [|discriminate].
  now rewrite (node_at_extends f f' q n He Hn).
Qed.

Lemma isdir_extends cwd f f' p :
  extends f f' → isdir_path cwd f p = true → isdir_path cwd f' p = true.
Proof.
  intros He. unfold isdir_path.
  destruct (stat cwd f p) as [e|[q [c|]]] eqn:Hs; try discriminate.
  now rewrite (stat_extends cwd f f' p _ He Hs).
Qed.

Lemma walk_empties f cur k :
  node_at f cur = Some Dir → walk f cur (repeat "" k) = inr cur.
Proof. intros Hn. induction k as [|k IH]; simpl; [reflexivity|now rewrite Hn]. Qed.

Lemma drop_empty_spec r :
  ∃ k, r = repeat "" k ++ drop_empty r.
Proof.
  induction r as [|c r [k IH]]; simpl; [now exists 0%nat|].
  destruct (String.eqb c "") eqn:Hc.
  - apply String.eqb_eq in Hc as ->. exists (S k). simpl. now rewrite <- IH.
  - now exists 0%nat.
Qed.

Lemma drop_empty_head r c r' :
  drop_empty r = c :: r' → String.eqb c "" = false.
Proof.
  induction r as [|c0 r IH]; simpl; [discriminate|].
  destruct (String.eqb c0 "") eqn:Hc; [exact IH|].
  now intros [= <- <-].
Qed.

Lemma drop_empty_nil r :
  drop_empty r = [] → all_empty r = true.
Proof.
  induction r as [|c r IH]; simpl; [reflexivity|].
  destruct (String.eqb c "") eqn:Hc; [exact IH|discriminate].
Qed.

Lemma rev_repeat_empty k : rev (repeat "" k) = repeat "" k.
Proof.
  induction k as [|k IH]; simpl; [reflexivity|].
  rewrite IH. clear IH. induction k as [|k IH]; simpl; [reflexivity|now rewrite IH].
Qed.

(** A path whose reversal, after its empty components, is [last] and then
    [before]. *)
Lemma path_ends p last before :
  drop_empty (rev p) = last :: before →
  ∃ k, p = rev before ++ [last] ++ repeat "" k.
Proof.
  intros Hd. destruct (drop_empty_spec (rev p)) as [k Hk].
  rewrite Hd in Hk. exists k.
  rewrite <- (rev_involutive p), Hk, rev_app_distr. simpl.
  now rewrite rev_repeat_empty, <- app_assoc.
Qed.

(** [os.mkdir] adds one directory and nothing else. *)
Lemma mkdir_extends cwd f p f' : mkdir cwd f p = inr f' → extends f f'.
Proof.
  unfold mkdir.
  destruct (existsb has_nul p); [discriminate|].
  destruct (is_empty p); [discriminate|].
  destruct (Nat.leb PATH_MAX (path_length p)); [discriminate|].
  destruct (drop_empty (rev p)) as [|last before]; [discriminate|].
  destruct (walk f (start cwd p) (rev before)) as [e|q]; [discriminate|].
  destruct (node_at f q) as [[content|]|]; try discriminate.
  destruct (String.eqb last "." || String.eqb last ".."); [discriminate|].
  destruct (Nat.ltb NAME_MAX (String.length last)); [discriminate|].
  destruct (node_at f (q ++ [last])) as [n|] eqn:Hn; [discriminate|].
  intros [= <-] q' n' Hq'.
  rewrite lookup_insert_ne; [exact Hq'|].
  intros <-. rewrite node_at_snoc in Hn. congruence.
Qed.

(** After [os.mkdir(p)] the path [p] is a directory. *)
Lemma mkdir_isdir cwd f p f' : mkdir cwd f p = inr f' → isdir_path cwd f' p = true.
Proof.
  intros Hm. assert (He := mkdir_extends _ _ _ _ Hm). revert Hm.
  unfold mkdir, isdir_path, stat.
  destruct (existsb has_nul p); [discriminate|].
  destruct (is_empty p); [discriminate|].
  destruct (Nat.leb PATH_MAX (path_length p)); [discriminate|].
  destruct (drop_empty (rev p)) as [|last before] eqn:Hd; [discriminate|].
  destruct (path_ends p last before Hd) as [k Hp].
  assert (Hlast := drop_empty_head _ _ _ Hd).
  destruct (walk f (start cwd p) (rev before)) as [e|q] eqn:Hw; [discriminate|].
  destruct (node_at f q) as [[content|]|] eqn:Hq; try discriminate.
  destruct (String.eqb last ".") eqn:Hdot; [discriminate|].
  destruct (String.eqb last "..") eqn:Hdd; [discriminate|]. simpl.
  destruct (Nat.ltb NAME_MAX (String.length last)) eqn:Hlen; [discriminate|].
  destruct (node_at f (q ++ [last])) as [n|] eqn:Hn; [discriminate|].
  intros [= <-].
  assert (Hnew : node_at (<[q ++ [last] := Dir]> f) (q ++ [last]) = Some Dir).
  { rewrite node_at_snoc. apply lookup_insert_eq. }
  revert Hw. generalize (start cwd p) as s. intros s Hw.
  rewrite Hp, walk_app, (walk_extends _ _ _ He _ _ Hw).
  simpl. rewrite (node_at_extends _ _ _ _ He Hq).
  unfold stays. rewrite Hlast, Hdot, Hdd, Hlen. simpl.
  rewrite (walk_empties _ _ _ Hnew). now rewrite Hnew.
Qed.

(** [os.mkdir] of a path at which something is raises [FileExistsError]. *)
Lemma mkdir_exists cwd f p x : stat cwd f p = inr x → mkdir cwd f p = inl FileExistsError.
Proof.
  unfold mkdir, stat.
  destruct (existsb has_nul p); [discriminate|].
  destruct (is_empty p); [discriminate|].
  destruct (Nat.leb PATH_MAX (path_length p)); [discriminate|].
  destruct (drop_empty (rev p)) as [|last before] eqn:Hd; [reflexivity|].
  destruct (path_ends p last before Hd) as [k Hp].
  assert (Hlast := drop_empty_head _ _ _ Hd).
  generalize (start cwd p) as s. intros s.
  rewrite Hp, walk_app.
  destruct (walk f s (rev before)) as [e|q] eqn:Hw; [discriminate|].
  simpl. destruct (node_at f q) as [[content|]|] eqn:Hq; try discriminate.
  unfold stays. rewrite Hlast. simpl.
  destruct (String.eqb last ".") eqn:Hdot; [reflexivity|].
  destruct (String.eqb last "..") eqn:Hdd; [reflexivity|]. simpl.
  destruct (Nat.ltb NAME_MAX (String.length last)) eqn:Hlen; [discriminate|].
  destruct k as [|k]; simpl.
  - destruct (node_at f (q ++ [last])) as [n|]; [reflexivity|discriminate].
  - destruct (node_at f (q ++ [last])) as [[content|]|]; try discriminate. reflexivity.
Qed.

(** *** [posixpath.split] and the part of a path before its last component *)

Lemma all_empty_rev p : all_empty (rev p) = all_empty p.
Proof.
  unfold all_empty. induction p as [|c p IH]; simpl; [reflexivity|].
  rewrite forallb_app, IH. simpl. rewrite andb_true_r. apply andb_comm.
Qed.

Lemma is_empty_inv p : is_empty p = true → p = [""].
Proof.
  destruct p as [|c [|c' p]]; simpl; try discriminate.
  now intros ->%String.eqb_eq.
Qed.

(** What [posixpath.split] gives as the head: the empty path, slashes
    alone, no more of them than the path has components, or a part of the
    path that stops before its end. *)
Lemma psplit_head p :
  is_empty (fst (psplit p)) = true
  ∨ (all_empty (fst (psplit p)) = true
     ∧ (2 <= length (fst (psplit p)) <= length p)%nat)
  ∨ (∃ rest, p = fst (psplit p) ++ rest ∧ rest ≠ [] ∧ fst (psplit p) ≠ []
             ∧ is_empty (fst (psplit p)) = false).
Proof.
  unfold psplit. destruct (rev p) as [|t [|b before]] eqn:Hr; simpl; auto.
  destruct (String.eqb b "" && all_empty before)%bool eqn:Hall.
  - right. left. simpl. split.
    + change (all_empty (rev (b :: before) ++ [""]) = true).
      rewrite <- (all_empty_rev (rev (b :: before) ++ [""])), rev_app_distr, rev_involutive.
      exact Hall.
    + rewrite <- (length_rev p), Hr. rewrite !length_app, length_rev. simpl. lia.
  - right. right. simpl.
    assert (Hp : p = rev (b :: before) ++ [t]).
    { rewrite <- (rev_involutive p), Hr. reflexivity. }
    destruct (drop_empty_spec (b :: before)) as [k Hk].
    destruct (drop_empty (b :: before)) as [|c r'] eqn:Hd.
    { apply drop_empty_nil in Hd. simpl in Hd. congruence. }
    assert (Hc := drop_empty_head _ _ _ Hd).
    simpl in Hd. rewrite Hd.
    exists (repeat "" k ++ [t]). repeat split.
    + rewrite Hp, Hk, rev_app_distr, rev_repeat_empty. now rewrite <- app_assoc.
    + destruct k; discriminate.
    + simpl. destruct (rev r'); discriminate.
    + simpl. destruct (rev r') as [|c1 [|c2 r1]] eqn:Hrr; simpl; auto.
Qed.

Lemma path_length_app_le p rest : (path_length p <= path_length (p ++ rest))%nat.
Proof.
  induction p as [|c p IH]; [simpl; lia|].
  change ((c :: p) ++ rest) with (c :: (p ++ rest)).
  destruct p as [|c' p]; [destruct rest; simpl; lia|].
  change ((c' :: p) ++ rest) with (c' :: (p ++ rest)) in *.
  change (path_length (c :: c' :: p)) with (String.length c + 1 + path_length (c' :: p))%nat.
  change (path_length (c :: c' :: (p ++ rest)))
    with (String.length c + 1 + path_length (c' :: (p ++ rest)))%nat.
  lia.
Qed.

Lemma path_length_components p : (length p <= S (path_length p))%nat.
Proof.
  induction p as [|c [|c' p] IH]; simpl in *; lia.
Qed.

Lemma path_length_all_empty p : all_empty p = true → (S (path_length p) = length p ∨ p = []).
Proof.
  induction p as [|c [|c' p] IH]; [now right| |].
  - simpl. rewrite andb_true_r. intros ->%String.eqb_eq. now left.
  - intros H. left. change (all_empty (c :: c' :: p)) with (String.eqb c "" && all_empty (c' :: p))%bool in H.
    apply andb_prop in H as [->%String.eqb_eq H].
    destruct (IH H) as [IH'|]; [|discriminate].
    change (path_length ("" :: c' :: p)) with (0 + 1 + path_length (c' :: p))%nat.
    simpl length in *. lia.
Qed.

Lemma has_nul_all_empty p : all_empty p = true → existsb has_nul p = false.
Proof.
  induction p as [|c p IH]; simpl; [reflexivity|].
  intros [->%String.eqb_eq H]%andb_prop. simpl. auto.
Qed.

Lemma walk_all_empty f cur p :
  all_empty p = true → node_at f cur = Some Dir → walk f cur p = inr cur.
Proof.
  intros Hp Hn. induction p as [|c p IH]; simpl; [reflexivity|].
  simpl in Hp. apply andb_prop in Hp as [->%String.eqb_eq Hp].
  rewrite Hn. simpl. auto.
Qed.

(** Slashes alone lead to the root. *)
Lemma stat_slashes cwd f p :
  all_empty p = true → (2 <= length p)%nat → (path_length p < PATH_MAX)%nat →
  stat cwd f p = inr ([], Dir).
Proof.
  intros Hall Hlen Hmax. unfold stat.
  rewrite (has_nul_all_empty p Hall).
  destruct p as [|c [|c' p]]; simpl in Hlen; try lia.
  assert (Hc : c = "").
  { simpl in Hall. now apply andb_prop in Hall as [->%String.eqb_eq _]. }
  subst c.
  change (is_empty ("" :: c' :: p)) with false. cbv iota.
  destruct (Nat.leb_spec PATH_MAX (path_length ("" :: c' :: p))) as [Hle|_]; [lia|].
  unfold start. change (is_absolute ("" :: c' :: p)) with true. cbv iota.
  now rewrite (walk_all_empty f [] _ Hall eq_refl).
Qed.

(** When a path leads somewhere, a part of it that stops before its end
    leads to a directory. *)
Lemma stat_prefix cwd f h rest x :
  stat cwd f (h ++ rest) = inr x → rest ≠ [] → h ≠ [] → is_empty h = false →
  ∃ q, stat cwd f h = inr (q, Dir).
Proof.
  intros Hs Hrest Hh Hne. revert Hs. unfold stat.
  rewrite existsb_app.
  destruct (existsb has_nul h); [discriminate|]. rewrite orb_false_l.
  destruct (existsb has_nul rest); [discriminate|].
  destruct (is_empty (h ++ rest)); [discriminate|].
  rewrite Hne.
  destruct (Nat.leb_spec PATH_MAX (path_length (h ++ rest))) as [|Hlt]; [discriminate|].
  destruct (Nat.leb_spec PATH_MAX (path_length h)) as [Hle|_].
  { pose proof (path_length_app_le h rest). lia. }
  assert (Hstart : start cwd (h ++ rest) = start cwd h).
  { unfold start. destruct h as [|c [|c' h]]; [congruence| |reflexivity].
    simpl in Hne. destruct rest as [|r rest]; [congruence|]. simpl. now rewrite Hne. }
  rewrite Hstart, walk_app.
  destruct (walk f (start cwd h) h) as [e|q]; [discriminate|].
  destruct rest as [|r rest]; [congruence|]. simpl.
  destruct (node_at f q) as [[content|]|]; try discriminate.
  intros _. now exists q.
Qed.

(** When a path leads somewhere, so does the head [posixpath.split] gives
    of it, unless that head is the empty path. *)
Lemma stat_psplit cwd f p x :
  stat cwd f p = inr x →
  is_empty (fst (psplit p)) = true ∨ ∃ y, stat cwd f (fst (psplit p)) = inr y.
Proof.
  intros Hs.
  destruct (psplit_head p) as [He|[[Hall Hlen]|(rest & Hp & Hrest & Hh & Hne)]]; [now left| |].
  - right. exists ([], Dir). apply stat_slashes; [exact Hall|lia|].
    assert (Hmax : (path_length p < PATH_MAX)%nat).
    { revert Hs. unfold stat.
      destruct (existsb has_nul p); [discriminate|].
      destruct (is_empty p); [discriminate|].
      destruct (Nat.leb_spec PATH_MAX (path_length p)); [discriminate|]. auto. }
    pose proof (path_length_components p) as Hcomp.
    destruct (path_length_all_empty _ Hall) as [Hl|Hl]; [lia|rewrite Hl in Hlen; simpl in Hlen; lia].
  - right. rewrite Hp in Hs.
    destruct (stat_prefix cwd f _ rest x Hs Hrest Hh Hne) as [q Hq]. eauto.
Qed.

(** [os.makedirs] has nothing to make above a path that leads somewhere. *)
Lemma split2_head_exists cwd f name x :
  stat cwd f name = inr x →
  (negb (is_empty (fst (split2 name)))
   && negb (String.eqb (snd (split2 name)) "")
   && negb (exists_path cwd f (fst (split2 name))))%bool = false.
Proof.
  intros Hs. unfold split2.
  destruct (psplit name) as [head tail] eqn:Hsplit.
  assert (H1 := stat_psplit cwd f name x Hs). rewrite Hsplit in H1. simpl in H1.
  destruct (String.eqb tail "") eqn:Htail.
  - destruct H1 as [He|[y Hy]].
    + apply is_empty_inv in He as ->. reflexivity.
    + destruct (stat_psplit cwd f head y Hy) as [He|[z Hz]].
      * now rewrite He.
      * unfold exists_path. rewrite Hz. simpl. now rewrite andb_false_r.
  - simpl. destruct H1 as [He|[y Hy]].
    + now rewrite He.
    + unfold exists_path. rewrite Hy. simpl. now rewrite andb_false_r.
Qed.

(** *** [os.makedirs] *)

Lemma mkdir_step_extends cwd f name : extends f (snd (mkdir_step cwd f name)).
Proof.
  unfold mkdir_step. destruct (mkdir cwd f name) as [e|f'] eqn:Hm; simpl.
  - destruct (is_oserror e && isdir_path cwd f name)%bool; apply extends_refl.
  - eapply mkdir_extends, Hm.
Qed.

Lemma mkdir_step_isdir cwd f name f' :
  mkdir_step cwd f name = (None, f') → isdir_path cwd f' name = true.
Proof.
  unfold mkdir_step. destruct (mkdir cwd f name) as [e|f1] eqn:Hm.
  - destruct (is_oserror e) eqn:He; simpl; [|discriminate].
    destruct (isdir_path cwd f name) eqn:Hd; [|discriminate].
    now intros [= <-].
  - intros [= <-]. eapply mkdir_isdir, Hm.
Qed.

(** Whatever [os.makedirs] does and however it ends, what was in the file
    system is still there. *)
Lemma makedirs_go_extends cwd room :
  ∀ name f, extends f (snd (makedirs_go room cwd name f)).
Proof.
  induction room as [|room IH]; intros name f; simpl; [apply extends_refl|].
  destruct (negb (is_empty (fst (split2 name)))
            && negb (String.eqb (snd (split2 name)) "")
            && negb (exists_path cwd f (fst (split2 name))))%bool;
    [|apply mkdir_step_extends].
  specialize (IH (fst (split2 name)) f).
  destruct (makedirs_go room cwd (fst (split2 name)) f) as [[e|] f1]; simpl in IH.
  - destruct e; simpl; try exact IH.
    destruct (String.eqb (snd (split2 name)) "."); [exact IH|].
    eapply extends_trans; [exact IH|apply mkdir_step_extends].
  - destruct (String.eqb (snd (split2 name)) "."); [exact IH|].
    eapply extends_trans; [exact IH|apply mkdir_step_extends].
Qed.

(** When [os.makedirs] returns, the name is a directory, unless the name
    ends in a [.] component. *)
Lemma makedirs_go_isdir cwd room name f f' :
  String.eqb (snd (split2 name)) "." = false →
  makedirs_go room cwd name f = (None, f') → isdir_path cwd f' name = true.
Proof.
  intros Hdot. destruct room as [|room]; simpl; [discriminate|].
  rewrite Hdot.
  destruct (negb (is_empty (fst (split2 name)))
            && negb (String.eqb (snd (split2 name)) "")
            && negb (exists_path cwd f (fst (split2 name))))%bool;
    [|apply mkdir_step_isdir].
  destruct (makedirs_go room cwd (fst (split2 name)) f) as [[e|] f1].
  - destruct e; try discriminate. apply mkdir_step_isdir.
  - apply mkdir_step_isdir.
Qed.

(** On a directory [os.makedirs] returns and changes nothing. *)
Lemma makedirs_go_on_dir cwd room name f :
  isdir_path cwd f name = true → makedirs_go (S room) cwd name f = (None, f).
Proof.
  intros Hd. simpl.
  assert (Hs : ∃ x, stat cwd f name = inr x).
  { unfold isdir_path in Hd. destruct (stat cwd f name) as [e|x]; [discriminate|eauto]. }
  destruct Hs as [x Hs].
  rewrite (split2_head_exists cwd f name x Hs).
  unfold mkdir_step. rewrite (mkdir_exists cwd f name x Hs). simpl. now rewrite Hd.
Qed.

(** On a file [os.makedirs] raises [FileExistsError] and changes nothing. *)
Lemma makedirs_go_on_file cwd room name f q content :
  stat cwd f name = inr (q, File content) →
  makedirs_go (S room) cwd name f = (Some FileExistsError, f).
Proof.
  intros Hs. simpl.
  rewrite (split2_head_exists cwd f name _ Hs).
  unfold mkdir_step. rewrite (mkdir_exists cwd f name _ Hs). simpl.
  unfold isdir_path. now rewrite Hs.
Qed.

End FileSystem.

(** *** [pathlib]: what [Path(p).exists()] looks at *)

Section Pathlib.

Import os.
Local Open Scope list_scope.

Implicit Types (f : gmap (list string) node) (p q cur : list string).

(** The components [pathlib] drops are those a walk stays at. *)
Lemma walk_filter f p :
  ∀ cur q, walk f cur p = inr q → walk f cur (List.filter proper p) = inr q.
Proof.
  induction p as [|c p IH]; intros cur q; simpl; [auto|].
  destruct (node_at f cur) as [[content|]|] eqn:Hn; try discriminate.
  unfold proper at 1. destruct (stays c) eqn:Hs; simpl; [apply IH|].
  rewrite Hn, Hs.
  destruct (String.eqb c ".."); [apply IH|].
  destruct (Nat.ltb NAME_MAX (String.length c)); [discriminate|apply IH].
Qed.

Lemma walk_stays_all f p :
  ∀ cur q, List.filter proper p = [] → walk f cur p = inr q →
           q = cur ∧ (p ≠ [] → node_at f cur = Some Dir).
Proof.
  induction p as [|c p IH]; intros cur q; simpl.
  - intros _ [= <-]. split; [reflexivity|congruence].
  - unfold proper at 1. destruct (stays c) eqn:Hs; simpl; [|discriminate].
    intros Hk. destruct (node_at f cur) as [[content|]|] eqn:Hn; try discriminate.
    intros Hw. destruct (IH cur q Hk Hw) as [-> _]. auto.
Qed.

Lemma has_nul_filter (P : string → bool) p :
  existsb has_nul p = false → existsb has_nul (List.filter P p) = false.
Proof.
  induction p as [|c p IH]; simpl; [auto|].
  intros [Hc Hp]%orb_false_elim. destruct (P c); simpl; [rewrite Hc|]; auto.
Qed.

Lemma path_length_sum p :
  p ≠ [] → S (path_length p) = (list_sum (map String.length p) + length p)%nat.
Proof.
  induction p as [|c [|c' p] IH]; [congruence| |]; intros _.
  - simpl. lia.
  - change (path_length (c :: c' :: p))
      with (String.length c + 1 + path_length (c' :: p))%nat.
    assert (H := IH ltac:(discriminate)). simpl in *. lia.
Qed.

Lemma filter_sizes (P : string → bool) p :
  (list_sum (map String.length (List.filter P p)) <= list_sum (map String.length p))%nat
  ∧ (length (List.filter P p) <= length p)%nat.
Proof.
  induction p as [|c p [IH1 IH2]]; simpl; [lia|].
  destruct (P c); simpl; lia.
Qed.

Lemma leading_two p :
  Nat.eqb (leading_slashes p) 2 = true → ∃ c r, p = "" :: "" :: c :: r.
Proof.
  destruct p as [|a [|b [|c r]]]; simpl; try discriminate.
  - destruct (String.eqb a ""); discriminate.
  - destruct (String.eqb a "") eqn:Ha; [|discriminate].
    destruct (String.eqb b "") eqn:Hb; [|discriminate].
    apply String.eqb_eq in Ha as ->. apply String.eqb_eq in Hb as ->. eauto.
Qed.

Lemma filter_proper_head p c k :
  List.filter proper p = c :: k → String.eqb c "" = false.
Proof.
  intros H.
  assert (Hin : In c (List.filter proper p)) by (rewrite H; now left).
  apply filter_In in Hin as [_ Hc]. unfold proper, stays in Hc.
  now destruct (String.eqb c "").
Qed.

(** What [os.stat] finds at a path it finds at the path [pathlib] keeps
    of it. *)
Lemma stat_pathlib cwd f p x :
  p ≠ [] → stat cwd f p = inr x → stat cwd f (pathlib_path p) = inr x.
Proof.
  intros Hp. unfold stat at 1.
  destruct (existsb has_nul p) eqn:Hnul; [discriminate|].
  destruct (is_empty p) eqn:Hemp; [discriminate|].
  destruct (Nat.leb_spec PATH_MAX (path_length p)) as [|Hmax]; [discriminate|].
  destruct (walk f (start cwd p) p) as [e|q] eqn:Hw; [discriminate|].
  destruct (node_at f q) as [n|] eqn:Hq; [|discriminate].
  intros [= <-].
  assert (Hsum := path_length_sum p Hp).
  destruct (filter_sizes proper p) as [Hs1 Hs2].
  assert (Hknul := has_nul_filter proper p Hnul).
  unfold pathlib_path, start in *.
  destruct (is_absolute p) eqn:Habs.
  - (* from the root *)
    destruct p as [|a [|b r]]; simpl in Habs; try discriminate.
    apply String.eqb_eq in Habs as ->.
    assert (Hkept : List.filter proper ("" :: b :: r) = List.filter proper (b :: r))
      by reflexivity.
    set (root := if Nat.eqb (leading_slashes ("" :: b :: r)) 2 then [""; ""] else [""]).
    set (tail := match List.filter proper ("" :: b :: r) with
                 | [] => [""]
                 | _ => List.filter proper ("" :: b :: r)
                 end).
    assert (Hroot : all_empty root = true ∧ root ≠ []
                    ∧ (length root + length tail <= length ("" :: b :: r))%nat).
    { subst root tail.
      destruct (Nat.eqb (leading_slashes ("" :: b :: r)) 2) eqn:Hl.
      - destruct (leading_two _ Hl) as (c & r' & Heq). injection Heq as -> ->.
        repeat split; [discriminate|].
        change (List.filter proper ("" :: "" :: c :: r'))
          with (List.filter proper (c :: r')).
        destruct (filter_sizes proper (c :: r')) as [_ Hlen].
        destruct (List.filter proper (c :: r')); simpl in *; lia.
      - repeat split; [discriminate|].
        rewrite Hkept. destruct (filter_sizes proper (b :: r)) as [_ Hlen].
        destruct (List.filter proper (b :: r)); simpl in *; lia. }
    destruct Hroot as (Hre & Hrn & Hlen).
    assert (Htail : tail ≠ [] ∧ existsb has_nul tail = false
                    ∧ (list_sum (map String.length tail)
                       <= list_sum (map String.length ("" :: b :: r)))%nat
                    ∧ walk f [] tail = inr q).
    { subst tail. destruct (List.filter proper ("" :: b :: r)) as [|c k] eqn:Hk.
      - repeat split; [discriminate|simpl; lia|].
        destruct (walk_stays_all f _ _ _ Hk Hw) as [-> _]. reflexivity.
      - repeat split; [discriminate|exact Hknul|exact Hs1|].
        rewrite <- Hk. now apply walk_filter. }
    destruct Htail as (Htn & Htnul & Htsum & Htw).
    clearbody root tail.
    assert (Hpp : root ++ tail ≠ []) by (destruct root; [congruence|discriminate]).
    assert (Hppsum := path_length_sum (root ++ tail) Hpp).
    rewrite map_app, list_sum_app, length_app in Hppsum.
    assert (Hrsum : list_sum (map String.length root) = 0%nat).
    { clear -Hre. induction root as [|c root IH]; [reflexivity|].
      simpl in Hre. apply andb_prop in Hre as [->%String.eqb_eq Hre]. simpl. auto. }
    unfold stat.
    rewrite existsb_app, (has_nul_all_empty root Hre), Htnul. cbn [orb].
    assert (Hshape : is_empty (root ++ tail) = false ∧ is_absolute (root ++ tail) = true).
    { destruct root as [|c [|c' root]]; [congruence| |].
      - simpl in Hre. apply andb_prop in Hre as [->%String.eqb_eq _].
        destruct tail; [congruence|]. split; reflexivity.
      - simpl in Hre. apply andb_prop in Hre as [->%String.eqb_eq _].
        split; reflexivity. }
    destruct Hshape as [-> Habs']. unfold start. rewrite Habs'.
    destruct (Nat.leb_spec PATH_MAX (path_length (root ++ tail))) as [Hle|_]; [lia|].
    rewrite walk_app, (walk_all_empty f [] root Hre eq_refl), Htw, Hq. reflexivity.
  - (* from the current directory *)
    destruct (List.filter proper p) as [|c k] eqn:Hk.
    + destruct (walk_stays_all f _ _ _ Hk Hw) as [-> Hd].
      specialize (Hd Hp).
      rewrite Hd in Hq. injection Hq as <-.
      unfold stat, start. cbn. rewrite Hd. cbn. now rewrite Hd.
    + assert (Hc := filter_proper_head p c k Hk).
      assert (Hkn : c :: k ≠ []) by discriminate.
      assert (Hksum := path_length_sum (c :: k) Hkn).
      apply walk_filter in Hw. rewrite Hk in Hw.
      unfold stat. rewrite Hknul.
      assert (Hshape : is_empty (c :: k) = false ∧ is_absolute (c :: k) = false).
      { destruct k; simpl; now rewrite Hc. }
      destruct Hshape as [-> Habs']. unfold start. rewrite Habs'.
      destruct (Nat.leb_spec PATH_MAX (path_length (c :: k))) as [Hle|_]; [lia|].
      now rewrite Hw, Hq.
Qed.

Lemma split_slash_cons s : split_slash s ≠ [].
Proof.
  induction s as [|c s IH]; simpl; [discriminate|].
  destruct (Ascii.eqb c "/"); [discriminate|].
  destruct (split_slash s); discriminate.
Qed.

(** [Path(s).exists()] is true of a path at which [os.stat] finds
    something. *)
Lemma exists_of_stat s w n :
  stat_node w s = inr n → exists_ s w = (Ret true, w).
Proof.
  unfold stat_node, exists_, path_exists.
  destruct (stat (cwd w) (fs w) (split_slash s)) as [e|x] eqn:Hs; [discriminate|].
  intros _. now rewrite (stat_pathlib _ _ _ _ (split_slash_cons s) Hs).
Qed.

End Pathlib.

(** ** [os.makedirs] in a world *)

Section Makedirs.

Import os.
Local Open Scope list_scope.

Lemma makedirs_fs_frame w w' s f :
  cwd w' = cwd w → stack_room w' = stack_room w → makedirs_fs w' s f = makedirs_fs w s f.
Proof. unfold makedirs_fs. now intros -> ->. Qed.

(** The call on a path, a [str] or [bytes], in one piece. *)
Lemma makedirs_path name s w :
  name = VStr s ∨ name = VBytes s →
  makedirs name w
  = (match fst (makedirs_fs w s (fs w)) with
     | None => Ret tt
     | Some e => Raise (Exc e)
     end,
     with_fs (snd (makedirs_fs w s (fs w)))
       (with_calls (calls w ++ [CallMakedirs name]) w)).
Proof.
  intros Hname.
  assert (H : ∀ w', cwd w' = cwd w → stack_room w' = stack_room w → fs w' = fs w →
                    (let '(o, f') := makedirs_fs w' s (fs w') in
                     match o with
                     | None => (Ret tt, with_fs f' w')
                     | Some e => (Raise (Exc e), with_fs f' w')
                     end)
                    = (match fst (makedirs_fs w s (fs w)) with
                       | None => Ret tt
                       | Some e => Raise (Exc e)
                       end,
                       with_fs (snd (makedirs_fs w s (fs w))) w')).
  { intros w' Hc Hr Hf. rewrite Hf, (makedirs_fs_frame w w') by assumption.
    now destruct (makedirs_fs w s (fs w)) as [[e|] f']. }
  specialize (H (with_calls (calls w ++ [CallMakedirs name]) w)).
  destruct Hname as [->| ->]; unfold makedirs, note, modify, bind;
    apply H; now destruct w.
Qed.

Lemma makedirs_text s w :
  makedirs (VStr s) w
  = (match fst (makedirs_fs w s (fs w)) with
     | None => Ret tt
     | Some e => Raise (Exc e)
     end,
     with_fs (snd (makedirs_fs w s (fs w)))
       (with_calls (calls w ++ [CallMakedirs (VStr s)]) w)).
Proof. apply makedirs_path. now left. Qed.

Lemma makedirs_returns s w f' :
  makedirs_fs w s (fs w) = (None, f') →
  makedirs (VStr s) w
  = (Ret tt, with_fs f' (with_calls (calls w ++ [CallMakedirs (VStr s)]) w)).
Proof. intros H. rewrite makedirs_text, H. reflexivity. Qed.

Lemma makedirs_raises s w e f' :
  makedirs_fs w s (fs w) = (Some e, f') →
  makedirs (VStr s) w
  = (Raise (Exc e), with_fs f' (with_calls (calls w ++ [CallMakedirs (VStr s)]) w)).
Proof. intros H. rewrite makedirs_text, H. reflexivity. Qed.

(** [os.makedirs] returns or raises an exception; it never deletes or
    replaces an entry, and it leaves all but the file system and the
    record of calls alone. *)
Lemma makedirs_keeps (name : value) (w : World) :
  (fst (makedirs name w) = Ret tt ∨ ∃ e, fst (makedirs name w) = Raise (Exc e))
  ∧ extends (fs w) (fs (snd (makedirs name w)))
  ∧ calls (snd (makedirs name w)) = calls w ++ [CallMakedirs name]
  ∧ cwd (snd (makedirs name w)) = cwd w
  ∧ stack_room (snd (makedirs name w)) = stack_room w
  ∧ log (snd (makedirs name w)) = log w
  ∧ py_random (snd (makedirs name w)) = py_random w
  ∧ np_random (snd (makedirs name w)) = np_random w.
Proof.
  unfold makedirs, note, modify, bind, raise; simpl.
  destruct name; simpl;
    try (destruct w; split; [right; eauto|repeat split; auto using extends_refl]; fail).
  - rewrite (makedirs_fs_frame w) by (now destruct w).
    replace (fs (with_calls (calls w ++ [CallMakedirs (VStr s)]) w)) with (fs w)
      by (now destruct w).
    pose proof (makedirs_go_extends (cwd w) (S (stack_room w)) (split_slash s) (fs w)) as He.
    fold (makedirs_fs w s (fs w)) in He.
    destruct (makedirs_fs w s (fs w)) as [[e|] f']; simpl in *;
      (split; [eauto|]); destruct w; simpl in *; repeat split; auto.
  - rewrite (makedirs_fs_frame w) by (now destruct w).
    replace (fs (with_calls (calls w ++ [CallMakedirs (VBytes b)]) w)) with (fs w)
      by (now destruct w).
    pose proof (makedirs_go_extends (cwd w) (S (stack_room w)) (split_slash b) (fs w)) as He.
    fold (makedirs_fs w b (fs w)) in He.
    destruct (makedirs_fs w b (fs w)) as [[e|] f']; simpl in *;
      (split; [eauto|]); destruct w; simpl in *; repeat split; auto.
Qed.

(** A name that does not end in a [.] component. *)
Lemma makedirs_fs_isdir w s f f' :
  dot_ended s = false → makedirs_fs w s f = (None, f') →
  isdir_path (cwd w) f' (split_slash s) = true.
Proof. intros Hd Hm. eapply makedirs_go_isdir; [exact Hd|exact Hm]. Qed.

Lemma makedirs_fs_on_dir w s f :
  isdir_path (cwd w) f (split_slash s) = true → makedirs_fs w s f = (None, f).
Proof. apply makedirs_go_on_dir. Qed.

Lemma makedirs_fs_extends w s f : extends f (snd (makedirs_fs w s f)).
Proof. apply makedirs_go_extends. Qed.

End Makedirs.

(** ** The seeding step of [main] *)

Section SeedStep.

Import train_colab.
Local Open Scope list_scope.

(** Whichever definition [set_seed] is bound to, a call returns or raises
    the [ValueError] of numpy, and it leaves files and log alone. *)
Lemma set_seed_cases (g : globals) (n : Z) (w : World) :
  ∃ w', (set_seed g n w = (Ret tt, w') ∨ set_seed g n w = (Raise (Exc ValueError), w'))
        ∧ fs w' = fs w ∧ log w' = log w ∧ log_config w' = log_config w
        ∧ cwd w' = cwd w ∧ stack_room w' = stack_room w.
Proof.
  unfold set_seed. destruct (set_seed_bound g) as [ts|].
  - destruct (decide (0 ≤ n < 2 ^ 32)) as [Hr|Hr].
    + destruct (set_seed_returns ts n w Hr) as [done Hd].
      eexists; split; [left; exact Hd|]. now destruct w.
    + eexists; split; [right; exact (set_seed_rejected ts n w Hr)|]. now destruct w.
  - exists (fallback_called n w). split; [left; reflexivity|]. now destruct w.
Qed.

Lemma fs_configured w : fs (configured w) = fs w.
Proof. unfold configured. now destruct w as [? ? ? ? [l|] ? ? ? ? ?]. Qed.

Lemma cwd_configured w : cwd (configured w) = cwd w.
Proof. unfold configured. now destruct w as [? ? ? ? [l|] ? ? ? ? ?]. Qed.

Lemma stack_room_configured w : stack_room (configured w) = stack_room w.
Proof. unfold configured. now destruct w as [? ? ? ? [l|] ? ? ? ? ?]. Qed.

Lemma load_config_found g w path config w' :
  config_file_holds g w path config → fs w' = fs w → cwd w' = cwd w →
  fst (os.exists_ path w') = Ret true
  ∧ load_config g path w' = (Ret config, w').
Proof.
  intros (Hex & text & Hl & Hy) Hfs Hcwd.
  unfold os.exists_, load_config, os.read_text, bind, lift in *; simpl in *.
  rewrite Hfs, Hcwd. split; [exact Hex|].
  destruct (os.open_read (cwd w) (fs w) (os.split_slash path)) as [e|text'];
    [discriminate|].
  injection Hl as ->. now rewrite Hy.
Qed.

(** A regular file at the path, with a text the parser accepts, is a
    configuration file that is read. *)
Lemma config_file_at g w path text config :
  os.stat_node w path = inr (File text) →
  safe_load (yaml g) text = inr config →
  config_file_holds g w path config.
Proof.
  intros Hf Hy. split; [now rewrite (exists_of_stat path w _ Hf)|].
  exists text. split; [|exact Hy].
  unfold os.read_text, os.open_read. unfold os.stat_node in Hf. simpl.
  destruct (os.stat (cwd w) (fs w) (os.split_slash path)) as [e|[q [c|]]];
    try discriminate.
  now injection Hf as ->.
Qed.

(** With its configuration file in place, [main] is its seeding step
    followed by the rest, started once logging is configured. *)
Lemma main_reaches_seed_step env g path w config :
  config_file_holds g w path config →
  main env g path w
  = (seed_step env g config >> after_seed env path config) (configured w).
Proof.
  intros H.
  destruct (load_config_found g w path config w H eq_refl eq_refl) as [Hex _].
  destruct (load_config_found g w path config (configured w) H
              (fs_configured w) (cwd_configured w)) as [_ Hload].
  rewrite main_steps. unfold main_by_steps.
  rewrite (bind_returns _ _ _ _ _ (locate_config_found path w Hex)).
  rewrite (bind_returns _ _ _ _ _ Hload).
  reflexivity.
Qed.

Lemma seed_attempt_cases env g v w :
  try_except
    (let* n := lift (int (interp env) v) in
     set_seed g n >>
     logging.info "Set deterministic seed: %s" [ArgValue v])
    (fun e => logging.warning "Failed to set seed: %s" [ArgExc e]) w
  = match int (interp env) v with
    | inl e => (Ret tt, with_log (log w ++ [seed_failed e]) w)
    | inr n =>
        match set_seed g n w with
        | (Ret _, w2) => (Ret tt, with_log (log w2 ++ [seed_set v]) w2)
        | (Raise (Exc e), w2) => (Ret tt, with_log (log w2 ++ [seed_failed e]) w2)
        | (Raise (SystemExit c), w2) => (Raise (SystemExit c), w2)
        end
    end.
Proof.
  unfold try_except, bind, lift.
  destruct (int (interp env) v) as [e|n]; simpl; [reflexivity|].
  destruct (set_seed g n w) as [[[]|[e|c]] w2]; reflexivity.
Qed.

Lemma seed_step_cases env g m others w :
  seed_step env g (VDict m others) w
  = match m !! "seed" with
    | None | Some VNone => (Ret tt, w)
    | Some v =>
        match int (interp env) v with
        | inl e => (Ret tt, with_log (log w ++ [seed_failed e]) w)
        | inr n =>
            match set_seed g n w with
            | (Ret _, w2) => (Ret tt, with_log (log w2 ++ [seed_set v]) w2)
            | (Raise (Exc e), w2) => (Ret tt, with_log (log w2 ++ [seed_failed e]) w2)
            | (Raise (SystemExit c), w2) => (Raise (SystemExit c), w2)
            end
        end
    end.
Proof.
  unfold seed_step, bind at 1, lift at 1, get, ret.
  destruct (m !! "seed") as [v|]; [|reflexivity].
  destruct v; first [reflexivity | apply seed_attempt_cases].
Qed.

(** On a mapping the seeding step always returns; it leaves the files
    alone. *)
Lemma seed_step_returns env g m others w :
  ∃ ws, seed_step env g (VDict m others) w = (Ret tt, ws)
        ∧ fs ws = fs w ∧ log_config ws = log_config w
        ∧ cwd ws = cwd w ∧ stack_room ws = stack_room w.
Proof.
  rewrite seed_step_cases.
  destruct (m !! "seed") as [v|]; [|now exists w].
  assert (Hv : ∃ ws,
             match int (interp env) v with
             | inl e => (Ret tt, with_log (log w ++ [seed_failed e]) w)
             | inr n =>
                 match set_seed g n w with
                 | (Ret _, w2) => (Ret tt, with_log (log w2 ++ [seed_set v]) w2)
                 | (Raise (Exc e), w2) => (Ret tt, with_log (log w2 ++ [seed_failed e]) w2)
                 | (Raise (SystemExit c), w2) => (Raise (SystemExit c), w2)
                 end
             end = (Ret tt, ws) ∧ fs ws = fs w ∧ log_config ws = log_config w
             ∧ cwd ws = cwd w ∧ stack_room ws = stack_room w).
  { destruct (int (interp env) v) as [e|n].
    - eexists; split; [reflexivity|]. now destruct w.
    - destruct (set_seed_cases g n w) as (w2 & [Hs|Hs] & Hfs & _ & Hlc & Hcw & Hsr);
        rewrite Hs; eexists; (split; [reflexivity|]); now destruct w2. }
  destruct v; try exact Hv. now exists w.
Qed.

End SeedStep.

(** ** Resolving the entry point *)

Section Resolution.

Import train_colab.
Local Open Scope list_scope.

(** The outcome of the two import statements, case by case. *)
Lemma resolve_train_cases env w :
  resolve_train env w
  = match import_train env with
    | Ret m =>
        match train_attr m with
        | Some f => (Ret f, tried ["from train import train"] w)
        | None => (Ret ObjNone, tried ["from train import train"; "import train"] w)
        end
    | Raise (Exc _) =>
        match import_train_again env with
        | Ret m =>
            (Ret (getattr_train m), tried ["from train import train"; "import train"] w)
        | Raise (Exc _) =>
            (Ret ObjNone, tried ["from train import train"; "import train"] w)
        | Raise (SystemExit c) =>
            (Raise (SystemExit c), tried ["from train import train"; "import train"] w)
        end
    | Raise (SystemExit c) =>
        (Raise (SystemExit c), tried ["from train import train"] w)
    end.
Proof.
  unfold resolve_train, try_except, bind, note, modify, import, ret, raise, tried,
    getattr_train; simpl.
  destruct (import_train env) as [m|[e|c]]; simpl.
  - destruct (train_attr m); simpl; [reflexivity|].
    destruct w; simpl. rewrite <- !app_assoc. reflexivity.
  - destruct (import_train_again env) as [m'|[e'|c']]; simpl;
      destruct w; simpl; rewrite <- !app_assoc; reflexivity.
  - reflexivity.
Qed.

(** C8: the resolution is two import statements in this order.  When
    [from train import train] succeeds its object is the result and no
    second import is made.  When it fails, by an exception of the import
    or for want of the name, [import train] is made and the result is the
    module's [train] attribute, [None] if it has none.  When that import
    fails too the result is [None].  In no case does an [Exception] leave
    the resolution. *)
Theorem resolution_two_steps (env : Env) (w : World) :
  resolve_train env w
  = match import_train env with
    | Ret m =>
        match train_attr m with
        | Some f => (Ret f, tried ["from train import train"] w)
        | None => (Ret ObjNone, tried ["from train import train"; "import train"] w)
        end
    | Raise (Exc _) =>
        match import_train_again env with
        | Ret m =>
            (Ret (getattr_train m), tried ["from train import train"; "import train"] w)
        | Raise (Exc _) =>
            (Ret ObjNone, tried ["from train import train"; "import train"] w)
        | Raise (SystemExit c) =>
            (Raise (SystemExit c), tried ["from train import train"; "import train"] w)
        end
    | Raise (SystemExit c) =>
        (Raise (SystemExit c), tried ["from train import train"] w)
    end
  ∧ ∀ e, fst (resolve_train env w) ≠ Raise (Exc e).
Proof.
  split; [apply resolve_train_cases|].
  intros e. rewrite resolve_train_cases.
  destruct (import_train env) as [m|[e1|c]]; simpl.
  - destruct (train_attr m); discriminate.
  - destruct (import_train_again env) as [m'|[e'|c']]; discriminate.
  - discriminate.
Qed.

(** When no [train] can be resolved, the resolution gives [None] after
    one or both imports. *)
Lemma resolve_train_none env w :
  no_train env →
  ∃ more, resolve_train env w
          = (Ret ObjNone, tried ("from train import train" :: more) w).
Proof.
  intros H. rewrite resolve_train_cases. unfold no_train, lacks_train in H.
  destruct (import_train env) as [m|[e|c]]; [| |contradiction].
  - destruct (train_attr m) as [[| |]|]; try contradiction.
    + now exists [].
    + now exists ["import train"].
  - destruct (import_train_again env) as [m'|[e'|c']]; [| |contradiction].
    + unfold getattr_train. destruct (train_attr m') as [[| |]|]; try contradiction;
        now exists ["import train"].
    + now exists ["import train"].
Qed.

(** With no [train] resolved, the dispatch logs its error and exits with
    status 3. *)
Lemma dispatch_without_train env path config w :
  no_train env →
  ∃ more, dispatch env path config w
          = (Raise (SystemExit 3),
             with_log (log w ++ [train_not_found])
               (tried ("from train import train" :: more) w)).
Proof.
  intros H. destruct (resolve_train_none env w H) as [more Hm].
  exists more. unfold dispatch.
  rewrite (bind_returns _ _ _ _ _ Hm). destruct w; reflexivity.
Qed.

End Resolution.

(** ** The directories *)

Section Directories.

Import train_colab.
Local Open Scope list_scope.

(** On a mapping, the two look-ups of [main] give the directory the data
    model describes. *)
Lemma get_described_dir m others key default v :
  described_dir m key default = Some v →
  ∃ paths, get (VDict m others) "paths" (VDict ∅ []) = inr paths
           ∧ get paths key (VStr default) = inr v.
Proof.
  unfold described_dir, get. destruct (m !! "paths") as [pv|].
  - destruct pv; try discriminate. intros [= <-]. eexists; split; reflexivity.
  - intros [= <-]. exists (VDict ∅ []). now rewrite lookup_empty.
Qed.

Lemma ensure_directories_cases config w :
  ensure_directories config w
  = match get config "paths" (VDict ∅ []) with
    | inl e => (Raise (Exc e), w)
    | inr paths =>
        match get paths "checkpoints" (VStr "checkpoints") with
        | inl e => (Raise (Exc e), w)
        | inr vc =>
            match get paths "logs" (VStr "logs") with
            | inl e => (Raise (Exc e), w)
            | inr vl => (os.makedirs vc >> os.makedirs vl >> ret vc) w
            end
        end
    end.
Proof.
  unfold ensure_directories.
  unfold bind at 1, lift at 1.
  destruct (get config "paths" (VDict ∅ [])) as [e|paths]; [reflexivity|].
  unfold ret at 1, bind at 1, lift at 1.
  destruct (get paths "checkpoints" (VStr "checkpoints")) as [e|vc]; [reflexivity|].
  unfold ret at 1, bind at 1, lift at 1.
  destruct (get paths "logs" (VStr "logs")) as [e|vl]; reflexivity.
Qed.

(** With the look-ups done, the directory step is the two calls. *)
Lemma ensure_directories_calls m others vc vl w :
  described_dir m "checkpoints" "checkpoints" = Some vc →
  described_dir m "logs" "logs" = Some vl →
  ensure_directories (VDict m others) w = (os.makedirs vc >> os.makedirs vl >> ret vc) w.
Proof.
  intros Hc Hl.
  destruct (get_described_dir _ others _ _ _ Hc) as (paths & Hp & Hgc).
  destruct (get_described_dir _ others _ _ _ Hl) as (paths' & Hp' & Hgl).
  rewrite Hp in Hp'. injection Hp' as <-.
  now rewrite ensure_directories_cases, Hp, Hgc, Hgl.
Qed.

Lemma isdir_frame w w' s :
  fs w' = fs w → cwd w' = cwd w → os.isdir w' s = os.isdir w s.
Proof. unfold os.isdir. now intros -> ->. Qed.

Lemma valid_configuration_frame w w' config cs ls :
  fs w' = fs w → cwd w' = cwd w → stack_room w' = stack_room w →
  valid_configuration w config cs ls → valid_configuration w' config cs ls.
Proof.
  intros Hfs Hcwd Hroom (m & others & f1 & f2 & H1 & H2 & H3 & H4 & H5 & H6 & H7).
  exists m, others, f1, f2. repeat split; auto.
  - rewrite Hfs. now rewrite (makedirs_fs_frame w w').
  - now rewrite (makedirs_fs_frame w w').
Qed.

(** For a valid configuration both directories are made, in the order
    checkpoints, logs. *)
Lemma ensure_directories_valid config cs ls w :
  valid_configuration w config cs ls →
  ∃ wd, ensure_directories config w = (Ret (VStr cs), wd)
        ∧ directories_made w wd cs ls
        ∧ cwd wd = cwd w.
Proof.
  intros (m & others & f1 & f2 & -> & Hc & Hl & Hdc & Hdl & Hm1 & Hm2).
  set (w1 := with_fs f1 (with_calls (calls w ++ [CallMakedirs (VStr cs)]) w)).
  assert (Hr1 : os.makedirs (VStr cs) w = (Ret tt, w1)) by (now apply makedirs_returns).
  assert (Hm2' : os.makedirs_fs w1 ls (fs w1) = (None, f2)).
  { rewrite (makedirs_fs_frame w w1) by (subst w1; now destruct w).
    replace (fs w1) with f1 by (subst w1; now destruct w). exact Hm2. }
  assert (Hr2 := makedirs_returns ls w1 f2 Hm2').
  eexists. split; [|split].
  - rewrite (ensure_directories_calls m others _ _ w Hc Hl).
    rewrite (bind_returns _ _ _ _ _ Hr1).
    rewrite (bind_returns _ _ _ _ _ Hr2). reflexivity.
  - assert (He2 : extends f1 f2).
    { pose proof (makedirs_fs_extends w ls f1) as H. now rewrite Hm2 in H. }
    assert (He1 : extends (fs w) f1).
    { pose proof (makedirs_fs_extends w cs (fs w)) as H. now rewrite Hm1 in H. }
    assert (Hi1 := makedirs_fs_isdir w cs (fs w) f1 Hdc Hm1).
    assert (Hi2 := makedirs_fs_isdir w ls f1 f2 Hdl Hm2).
    unfold directories_made, os.isdir. subst w1. destruct w; simpl in *.
    repeat split; auto.
    + now rewrite <- app_assoc.
    + now apply (isdir_extends _ f1).
    + now apply (extends_trans _ f1).
  - subst w1. now destruct w.
Qed.

(** Directories that are there already are found: the two calls return
    and nothing changes on disk. *)
Lemma ensure_directories_existing m others cs ls w :
  described_dir m "checkpoints" "checkpoints" = Some (VStr cs) →
  described_dir m "logs" "logs" = Some (VStr ls) →
  os.isdir w cs = true → os.isdir w ls = true →
  ensure_directories (VDict m others) w
  = (Ret (VStr cs),
     with_calls (calls w ++ [CallMakedirs (VStr cs); CallMakedirs (VStr ls)]) w).
Proof.
  intros Hc Hl Hdc Hdl.
  assert (Hm1 := makedirs_fs_on_dir w cs (fs w) Hdc).
  assert (Hm2 := makedirs_fs_on_dir w ls (fs w) Hdl).
  set (w1 := with_fs (fs w) (with_calls (calls w ++ [CallMakedirs (VStr cs)]) w)).
  assert (Hr1 : os.makedirs (VStr cs) w = (Ret tt, w1)) by (now apply makedirs_returns).
  assert (Hm2' : os.makedirs_fs w1 ls (fs w1) = (None, fs w)).
  { rewrite (makedirs_fs_frame w w1) by (subst w1; now destruct w).
    replace (fs w1) with (fs w) by (subst w1; now destruct w). exact Hm2. }
  assert (Hr2 := makedirs_returns ls w1 (fs w) Hm2').
  rewrite (ensure_directories_calls m others _ _ w Hc Hl).
  rewrite (bind_returns _ _ _ _ _ Hr1).
  rewrite (bind_returns _ _ _ _ _ Hr2).
  subst w1. destruct w; unfold ret; simpl. now rewrite <- app_assoc.
Qed.

(** Directories that are there already make a configuration valid. *)
Lemma existing_directories_valid w m others cs ls :
  described_dir m "checkpoints" "checkpoints" = Some (VStr cs) →
  described_dir m "logs" "logs" = Some (VStr ls) →
  os.dot_ended cs = false → os.dot_ended ls = false →
  os.isdir w cs = true → os.isdir w ls = true →
  valid_configuration w (VDict m others) cs ls.
Proof.
  intros Hc Hl Hdc Hdl Hic Hil.
  exists m, others, (fs w), (fs w). repeat split; auto.
  - now apply makedirs_fs_on_dir.
  - now apply makedirs_fs_on_dir.
Qed.

(** The resume notice returns and adds at most its record to the log. *)
Lemma resume_notice_cases m others ckpt w :
  resume_notice (VDict m others) ckpt w
  = (Ret tt,
     if truthy (match m !! "resume" with Some v => v | None => VBool false end)
     then with_log (log w ++ [resume_enabled ckpt]) w
     else w).
Proof.
  unfold resume_notice, bind, lift, get, ret, logging.info, logging.emit, modify.
  now destruct (truthy _).
Qed.

(** The dispatch of [main], by what the resolution gives. *)
Lemma dispatch_after_resolution env path config w o wi :
  resolve_train env w = (o, wi) →
  dispatch env path config w
  = match o with
    | Ret ObjNone => (Raise (SystemExit 3), with_log (log wi ++ [train_not_found]) wi)
    | Ret (ObjFunction f) =>
        f config
          (with_calls
             (calls (with_log (log wi ++ [starting_training path]) wi)
              ++ [CallTrain config])
             (with_log (log wi ++ [starting_training path]) wi))
    | Ret ObjOther =>
        (Raise (Exc TypeError), with_log (log wi ++ [starting_training path]) wi)
    | Raise x => (Raise x, wi)
    end.
Proof.
  intros H. unfold dispatch. unfold bind at 1. rewrite H.
  destruct o as [[|f|]|x]; reflexivity.
Qed.

Lemma resolve_train_tried env w :
  ∃ more, snd (resolve_train env w) = tried ("from train import train" :: more) w.
Proof.
  rewrite resolve_train_cases.
  destruct (import_train env) as [m|[e|c]].
  - destruct (train_attr m); [now exists []|now exists ["import train"]].
  - destruct (import_train_again env) as [m'|[e'|c']]; now exists ["import train"].
  - now exists [].
Qed.

Lemma dispatch_dispatched env path config w :
  dispatched env path config w (dispatch env path config w).
Proof.
  destruct (resolve_train_tried env w) as [more Hm].
  exists more. cbv zeta. rewrite <- Hm.
  destruct (resolve_train env w) as [o wi] eqn:Hr. simpl.
  rewrite (dispatch_after_resolution env path config w o wi Hr).
  destruct o as [[|f|]|x]; reflexivity.
Qed.

(** After its seeding step, [main] makes the directories of a valid
    configuration and reaches the dispatch. *)
Lemma after_seed_carries_on env path config ws :
  carries_on env path config ws (after_seed env path config ws).
Proof.
  split; [reflexivity|].
  intros cs ls Hvalid.
  destruct (ensure_directories_valid config cs ls ws Hvalid) as (wd & He & Hmade & _).
  destruct Hvalid as (m & others & f1 & f2 & -> & _).
  eexists wd, _. split; [exact He|]. split; [exact Hmade|]. split.
  - exists m, others. split; reflexivity.
  - unfold after_seed.
    rewrite (bind_returns _ _ _ _ _ He).
    rewrite (bind_returns _ _ _ _ _ (resume_notice_cases m others (VStr cs) wd)).
    apply dispatch_dispatched.
Qed.

End Directories.

(** ** The run of [main] *)

Section MainClaims.

Import train_colab.
Local Open Scope list_scope.

(** C5, as amended: when the configuration has a [seed] entry whose value
    is not null, [main] attempts [int(seed)]; when the conversion raises,
    the exception is logged as a warning; when it gives [n], [set_seed(n)]
    is called, and a return is followed by the record "Set deterministic
    seed", an exception by a warning that carries it.  In every case the
    seeding step returns normally and [main] goes on from there: it is
    the rest of [main], and for a valid configuration [os.makedirs] is
    called on both directories, both are directories afterwards, and the
    result of [main] is the one of the dispatch. *)
Theorem seeding_is_never_fatal (env : Env) (g : globals) (path : string) (w : World)
    (m : gmap string value) (others : list (value * value)) (v : value) :
  config_file_holds g w path (VDict m others) →
  m !! "seed" = Some v →
  v ≠ VNone →
  ∃ ws, seed_step env g (VDict m others) (configured w) = (Ret tt, ws)
        ∧ carries_on env path (VDict m others) ws (main env g path w)
        ∧ match int (interp env) v with
          | inl e => ws = with_log (log (configured w) ++ [seed_failed e]) (configured w)
          | inr n =>
              ∃ w2, (set_seed g n (configured w) = (Ret tt, w2)
                     ∧ ws = with_log (log w2 ++ [seed_set v]) w2)
                    ∨ (∃ e, set_seed g n (configured w) = (Raise (Exc e), w2)
                            ∧ ws = with_log (log w2 ++ [seed_failed e]) w2)
          end.
Proof.
  intros Hfile Hseed Hv.
  assert (Hstep : ∃ ws, seed_step env g (VDict m others) (configured w) = (Ret tt, ws)
            ∧ match int (interp env) v with
              | inl e => ws = with_log (log (configured w) ++ [seed_failed e]) (configured w)
              | inr n =>
                  ∃ w2, (set_seed g n (configured w) = (Ret tt, w2)
                         ∧ ws = with_log (log w2 ++ [seed_set v]) w2)
                        ∨ (∃ e, set_seed g n (configured w) = (Raise (Exc e), w2)
                                ∧ ws = with_log (log w2 ++ [seed_failed e]) w2)
              end).
  { rewrite seed_step_cases, Hseed.
    assert (Hbody : ∃ ws,
              match int (interp env) v with
              | inl e => (Ret tt, with_log (log (configured w) ++ [seed_failed e]) (configured w))
              | inr n =>
                  match set_seed g n (configured w) with
                  | (Ret _, w2) => (Ret tt, with_log (log w2 ++ [seed_set v]) w2)
                  | (Raise (Exc e), w2) => (Ret tt, with_log (log w2 ++ [seed_failed e]) w2)
                  | (Raise (SystemExit c), w2) => (Raise (SystemExit c), w2)
                  end
              end = (Ret tt, ws)
              ∧ match int (interp env) v with
                | inl e => ws = with_log (log (configured w) ++ [seed_failed e]) (configured w)
                | inr n =>
                    ∃ w2, (set_seed g n (configured w) = (Ret tt, w2)
                           ∧ ws = with_log (log w2 ++ [seed_set v]) w2)
                          ∨ (∃ e, set_seed g n (configured w) = (Raise (Exc e), w2)
                                  ∧ ws = with_log (log w2 ++ [seed_failed e]) w2)
                end).
    { destruct (int (interp env) v) as [e|n].
      - eexists; split; reflexivity.
      - destruct (set_seed_cases g n (configured w)) as (w2 & [Hs|Hs] & _); rewrite Hs.
        + eexists; split; [reflexivity|]. exists w2. left. split; reflexivity.
        + eexists; split; [reflexivity|]. exists w2. right.
          exists ValueError. split; reflexivity. }
    destruct v; try exact Hbody. contradiction. }
  destruct Hstep as (ws & Hs & Hshape).
  exists ws. split; [exact Hs|]. split; [|exact Hshape].
  rewrite (main_reaches_seed_step env g path w _ Hfile).
  rewrite (bind_returns _ _ _ _ _ Hs).
  apply after_seed_carries_on.
Qed.

(** C6: when the configuration has no [seed] entry, the seeding step of
    [main] returns without any effect: no call of [set_seed] or of any
    other function is made, nothing is logged or printed, no exception is
    raised; [main] then goes on in the same world: it is the rest of
    [main], and for a valid configuration [os.makedirs] is called on both
    directories, both are directories afterwards, and the result of
    [main] is the one of the dispatch. *)
Theorem absent_seed_skips_seeding (env : Env) (g : globals) (path : string) (w : World)
    (m : gmap string value) (others : list (value * value)) :
  config_file_holds g w path (VDict m others) →
  m !! "seed" = None →
  seed_step env g (VDict m others) (configured w) = (Ret tt, configured w)
  ∧ calls (configured w) = calls w
  ∧ carries_on env path (VDict m others) (configured w) (main env g path w).
Proof.
  intros Hfile Hseed.
  assert (Hs : seed_step env g (VDict m others) (configured w) = (Ret tt, configured w))
    by (now rewrite seed_step_cases, Hseed).
  split; [exact Hs|]. split.
  - unfold configured. now destruct w as [? ? ? ? [l|] ? ? ? ? ?].
  - rewrite (main_reaches_seed_step env g path w _ Hfile).
    rewrite (bind_returns _ _ _ _ _ Hs).
    apply after_seed_carries_on.
Qed.

(** C7: for a configuration that is read from its file and whose
    directories, by the data model, are the strings [cs] (entry
    [checkpoints] of [paths], default "checkpoints") and [ls] (entry
    [logs], default "logs"), the directory step of [main] is
    [os.makedirs] on [cs] and then on [ls].  When the configuration is
    valid, both calls return, both paths are directories afterwards,
    nothing that was on disk is gone, and [main] goes on with the resume
    notice and the dispatch.  When both paths are directories already,
    both calls return and the disk is as it was. *)
Theorem directories_resolved_and_created (env : Env) (g : globals) (path : string)
    (w : World) (m : gmap string value) (others : list (value * value))
    (cs ls : string) :
  config_file_holds g w path (VDict m others) →
  described_dir m "checkpoints" "checkpoints" = Some (VStr cs) →
  described_dir m "logs" "logs" = Some (VStr ls) →
  ∃ ws, seed_step env g (VDict m others) (configured w) = (Ret tt, ws)
        ∧ fs ws = fs w
        ∧ ensure_directories (VDict m others) ws
          = (os.makedirs (VStr cs) >> os.makedirs (VStr ls) >> ret (VStr cs)) ws
        ∧ (valid_configuration w (VDict m others) cs ls →
           ∃ wd, ensure_directories (VDict m others) ws = (Ret (VStr cs), wd)
                 ∧ directories_made ws wd cs ls
                 ∧ main env g path w
                   = (resume_notice (VDict m others) (VStr cs)
                      >> dispatch env path (VDict m others)) wd)
        ∧ (os.isdir w cs = true → os.isdir w ls = true →
           ensure_directories (VDict m others) ws
           = (Ret (VStr cs),
              with_calls (calls ws ++ [CallMakedirs (VStr cs); CallMakedirs (VStr ls)]) ws)).
Proof.
  intros Hfile Hc Hl.
  destruct (seed_step_returns env g m others (configured w))
    as (ws & Hs & Hfs & _ & Hcwd & Hroom).
  rewrite fs_configured in Hfs. rewrite cwd_configured in Hcwd.
  rewrite stack_room_configured in Hroom.
  exists ws. split; [exact Hs|]. split; [exact Hfs|].
  split; [now apply ensure_directories_calls|]. split.
  - intros Hvalid.
    apply (valid_configuration_frame w ws) in Hvalid; auto.
    destruct (ensure_directories_valid _ _ _ _ Hvalid) as (wd & He & Hmade & _).
    exists wd. split; [exact He|]. split; [exact Hmade|].
    rewrite (main_reaches_seed_step env g path w _ Hfile).
    rewrite (bind_returns _ _ _ _ _ Hs). unfold after_seed.
    now rewrite (bind_returns _ _ _ _ _ He).
  - intros Hdc Hdl. apply ensure_directories_existing; auto.
    + now rewrite (isdir_frame w ws).
    + now rewrite (isdir_frame w ws).
Qed.

(** C3: for a configuration that is read from its file and is valid, and
    an installation in which no [train] callable can be resolved, [main]
    logs the error "Could not import a train(config) function" and ends
    the process by [sys.exit(3)]; by then [os.makedirs] was called on the
    checkpoint and the log directory, before the first import of the
    resolution, and both are directories. *)
Theorem unresolved_train_exits_3 (env : Env) (g : globals) (path : string) (w : World)
    (config : value) (cs ls : string) :
  config_file_holds g w path config →
  valid_configuration w config cs ls →
  no_train env →
  ∃ w', main env g path w = (Raise (SystemExit 3), w')
        ∧ exit_status (fst (main env g path w)) = 3
        ∧ (∃ earlier, log w' = earlier ++ [train_not_found])
        ∧ os.isdir w' cs = true
        ∧ os.isdir w' ls = true
        ∧ ∃ before after,
            calls w' = before
                       ++ [CallMakedirs (VStr cs); CallMakedirs (VStr ls);
                           CallImport "from train import train"]
                       ++ after.
Proof.
  intros Hfile Hvalid Hno.
  assert (Hdict : ∃ m others, config = VDict m others).
  { destruct Hvalid as (m & others & _ & _ & -> & _). eauto. }
  destruct Hdict as (m & others & ->).
  destruct (seed_step_returns env g m others (configured w))
    as (ws & Hs & Hfs & _ & Hcwd & Hroom).
  rewrite fs_configured in Hfs. rewrite cwd_configured in Hcwd.
  rewrite stack_room_configured in Hroom.
  apply (valid_configuration_frame w ws) in Hvalid; auto.
  destruct (ensure_directories_valid _ _ _ _ Hvalid)
    as (wd & He & (Hcalls & Hdc & Hdl & _) & _).
  pose proof (resume_notice_cases m others (VStr cs) wd) as Hr.
  set (wr := if truthy (match m !! "resume" with Some v => v | None => VBool false end)
             then with_log (log wd ++ [resume_enabled (VStr cs)]) wd else wd) in *.
  assert (Hwr : fs wr = fs wd ∧ cwd wr = cwd wd ∧ calls wr = calls wd).
  { subst wr. destruct (truthy _); [now destruct wd|auto]. }
  destruct Hwr as (Hfr & Hcr & Hcallr).
  destruct (dispatch_without_train env path (VDict m others) wr Hno) as (more & Hd).
  assert (Hmain : main env g path w
                  = (Raise (SystemExit 3),
                     with_log (log wr ++ [train_not_found])
                       (tried ("from train import train" :: more) wr))).
  { rewrite (main_reaches_seed_step env g path w _ Hfile).
    rewrite (bind_returns _ _ _ _ _ Hs). unfold after_seed.
    rewrite (bind_returns _ _ _ _ _ He).
    rewrite (bind_returns _ _ _ _ _ Hr).
    exact Hd. }
  eexists. split; [exact Hmain|]. rewrite Hmain.
  split; [reflexivity|]. split; [|split; [|split]].
  - eexists. simpl. reflexivity.
  - rewrite <- Hdc. apply isdir_frame; [rewrite <- Hfr|rewrite <- Hcr]; now destruct wr.
  - rewrite <- Hdl. apply isdir_frame; [rewrite <- Hfr|rewrite <- Hcr]; now destruct wr.
  - exists (calls ws), (map CallImport more).
    replace (calls _) with (calls wr ++ CallImport "from train import train" :: map CallImport more)
      by (now destruct wr).
    rewrite Hcallr, Hcalls, <- !app_assoc. reflexivity.
Qed.

End MainClaims.

(** ** The fallback [set_seed] *)

Section FallbackClaims.

Import train_colab.
Local Open Scope list_scope.

(** When [from train_seed import set_seed] raises an exception, the name
    is bound to the fallback. *)
Lemma load_binds_fallback env y e w :
  import_yaml env = Ret y →
  fst (import_train_seed_module env w) = Raise (Exc e) →
  load env w = (Ret {| yaml := y; set_seed_bound := Fallback |}, w).
Proof.
  intros Hy H.
  unfold load, import_train_seed_module, train_seed.load, try_except, bind, import,
    ret, raise in *.
  rewrite Hy.
  destruct (import_train_seed env); [|reflexivity].
  destruct (import_torch env) as [t|[e1|c1]];
    destruct (import_numpy env) as [[]|[e2|c2]]; simpl in *;
    first [discriminate | reflexivity].
Qed.

(** C10, as amended: when [train_seed] cannot be imported, [set_seed] is
    bound, without a message, to a fallback that prints one line and
    leaves every generator as it is; then, for a configuration whose
    [seed] entry is not null and converts to an integer, [main] still
    logs "Set deterministic seed", with [random], numpy and torch in the
    state they were in, and goes on with the directories and the
    dispatch. *)
Theorem fallback_logs_seed_set (env : Env) (y : yaml_module) (e : exception)
    (w0 : World) :
  import_yaml env = Ret y →
  fst (import_train_seed_module env w0) = Raise (Exc e) →
  ∃ g, load env w0 = (Ret g, w0)
       ∧ set_seed_bound g = Fallback
       ∧ (∀ n w, set_seed g n w = (Ret tt, fallback_called n w))
       ∧ ∀ path w m others v n,
           config_file_holds g w path (VDict m others) →
           m !! "seed" = Some v → v ≠ VNone → int (interp env) v = inr n →
           ∃ ws, seed_step env g (VDict m others) (configured w) = (Ret tt, ws)
                 ∧ carries_on env path (VDict m others) ws (main env g path w)
                 ∧ calls ws = calls w ++ [CallSetSeed n]
                 ∧ log ws = log w ++ [seed_set v]
                 ∧ stdout ws
                   = stdout w ++ ["train_seed.set_seed not available; skipping seed setup"]
                 ∧ py_random ws = py_random w
                 ∧ np_random ws = np_random w
                 ∧ torch_done ws = torch_done w.
Proof.
  intros Hy H. exists {| yaml := y; set_seed_bound := Fallback |}.
  split; [now apply (load_binds_fallback env y e)|].
  split; [reflexivity|]. split; [reflexivity|].
  intros path w m others v n Hfile Hseed Hv Hint.
  exists (with_log (log (fallback_called n (configured w)) ++ [seed_set v])
            (fallback_called n (configured w))).
  assert (Hs : seed_step env {| yaml := y; set_seed_bound := Fallback |} (VDict m others)
                 (configured w)
               = (Ret tt,
                  with_log (log (fallback_called n (configured w)) ++ [seed_set v])
                    (fallback_called n (configured w)))).
  { rewrite seed_step_cases, Hseed.
    destruct v; try contradiction; rewrite Hint; reflexivity. }
  split; [exact Hs|]. split.
  - rewrite (main_reaches_seed_step env _ path w _ Hfile).
    rewrite (bind_returns _ _ _ _ _ Hs).
    apply after_seed_carries_on.
  - unfold configured. destruct w as [? ? ? ? [l|] ? ? ? ? ?]; repeat split.
Qed.

End FallbackClaims.

(** ** The properties at sample inputs *)

Section Samples.

Import train_colab.
Local Open Scope list_scope.

Lemma sample_config_file config :
  config_file_holds (Sample.loaded config) Sample.boot default_config config.
Proof.
  split; [reflexivity|]. exists "seed: 42". split; reflexivity.
Defined.

Lemma colab_config_file config :
  config_file_holds (Sample.loaded config) Sample.colab default_config config.
Proof.
  split; [reflexivity|]. exists "seed: 42". split; reflexivity.
Defined.

Lemma sample_valid m others :
  m !! "paths" = None →
  valid_configuration Sample.boot (VDict m others) "checkpoints" "logs".
Proof.
  intros H.
  exists m, others,
    (snd (os.makedirs_fs Sample.boot "checkpoints" (fs Sample.boot))),
    (snd (os.makedirs_fs Sample.boot "logs"
            (snd (os.makedirs_fs Sample.boot "checkpoints" (fs Sample.boot))))).
  unfold described_dir. rewrite H. repeat split.
Defined.

Lemma colab_valid :
  valid_configuration Sample.colab (VDict Sample.custom_paths [])
    "runs/exp1/ckpt" "/content/runs/logs".
Proof.
  exists Sample.custom_paths, [],
    (snd (os.makedirs_fs Sample.colab "runs/exp1/ckpt" (fs Sample.colab))),
    (snd (os.makedirs_fs Sample.colab "/content/runs/logs"
            (snd (os.makedirs_fs Sample.colab "runs/exp1/ckpt" (fs Sample.colab))))).
  repeat split.
Defined.

Lemma seeding_is_never_fatal_witness :
  ∃ ws, seed_step (Sample.bare (VDict {[ "seed" := VStr "abc" ]} []))
          (Sample.loaded (VDict {[ "seed" := VStr "abc" ]} []))
          (VDict {[ "seed" := VStr "abc" ]} []) (configured Sample.boot) = (Ret tt, ws)
        ∧ carries_on (Sample.bare (VDict {[ "seed" := VStr "abc" ]} [])) default_config
            (VDict {[ "seed" := VStr "abc" ]} []) ws
            (main (Sample.bare (VDict {[ "seed" := VStr "abc" ]} []))
               (Sample.loaded (VDict {[ "seed" := VStr "abc" ]} [])) default_config
               Sample.boot)
        ∧ ws = with_log (log (configured Sample.boot) ++ [seed_failed ValueError])
                 (configured Sample.boot).
Proof.
  apply (seeding_is_never_fatal (Sample.bare (VDict {[ "seed" := VStr "abc" ]} []))
           (Sample.loaded (VDict {[ "seed" := VStr "abc" ]} [])) default_config Sample.boot
           {[ "seed" := VStr "abc" ]} [] (VStr "abc")).
  - apply sample_config_file.
  - reflexivity.
  - discriminate.
Defined.

(** C5 as stated fails on [seed: null]: the configuration has the key,
    [int(None)] would raise a [TypeError], and yet [main] logs no warning
    and calls no [set_seed]: it attempts no conversion. *)
Lemma null_seed_is_not_converted :
  ({[ "seed" := VNone ]} : gmap string value) !! "seed" = Some VNone
  ∧ (∀ py, int py VNone = inl TypeError)
  ∧ log (snd (main (Sample.bare (VDict {[ "seed" := VNone ]} []))
                (Sample.loaded (VDict {[ "seed" := VNone ]} [])) default_config
                Sample.boot))
    = [train_not_found]
  ∧ calls (snd (main (Sample.bare (VDict {[ "seed" := VNone ]} []))
                  (Sample.loaded (VDict {[ "seed" := VNone ]} [])) default_config
                  Sample.boot))
    = [CallMakedirs (VStr "checkpoints"); CallMakedirs (VStr "logs");
       CallImport "from train import train"; CallImport "import train"].
Proof. repeat split. Qed.

Lemma absent_seed_skips_seeding_witness :
  seed_step (Sample.with_train (VDict ∅ [])) (Sample.loaded (VDict ∅ [])) (VDict ∅ [])
    (configured Sample.boot)
  = (Ret tt, configured Sample.boot)
  ∧ calls (configured Sample.boot) = calls Sample.boot
  ∧ carries_on (Sample.with_train (VDict ∅ [])) default_config (VDict ∅ [])
      (configured Sample.boot)
      (main (Sample.with_train (VDict ∅ [])) (Sample.loaded (VDict ∅ [])) default_config
         Sample.boot).
Proof.
  apply (absent_seed_skips_seeding (Sample.with_train (VDict ∅ []))
           (Sample.loaded (VDict ∅ [])) default_config Sample.boot ∅ []).
  - apply sample_config_file.
  - reflexivity.
Defined.

Lemma directories_resolved_and_created_witness :
  ∃ ws wd,
    seed_step (Sample.with_train (VDict Sample.custom_paths []))
      (Sample.loaded (VDict Sample.custom_paths [])) (VDict Sample.custom_paths [])
      (configured Sample.colab) = (Ret tt, ws)
    ∧ ensure_directories (VDict Sample.custom_paths []) ws
      = (Ret (VStr "runs/exp1/ckpt"), wd)
    ∧ directories_made ws wd "runs/exp1/ckpt" "/content/runs/logs"
    ∧ main (Sample.with_train (VDict Sample.custom_paths []))
        (Sample.loaded (VDict Sample.custom_paths [])) default_config Sample.colab
      = (resume_notice (VDict Sample.custom_paths []) (VStr "runs/exp1/ckpt")
         >> dispatch (Sample.with_train (VDict Sample.custom_paths [])) default_config
              (VDict Sample.custom_paths [])) wd.
Proof.
  destruct (directories_resolved_and_created
              (Sample.with_train (VDict Sample.custom_paths []))
              (Sample.loaded (VDict Sample.custom_paths [])) default_config Sample.colab
              Sample.custom_paths [] "runs/exp1/ckpt" "/content/runs/logs"
              (colab_config_file _) eq_refl eq_refl)
    as (ws & Hs & _ & _ & Hmade & _).
  destruct (Hmade colab_valid) as (wd & He & Hd & Hmain).
  exists ws, wd. split; [exact Hs|]. split; [exact He|]. split; [exact Hd|exact Hmain].
Defined.

Lemma unresolved_train_exits_3_witness :
  no_train (Sample.bare (VDict Sample.custom_paths []))
  ∧ ∃ w', main (Sample.bare (VDict Sample.custom_paths []))
            (Sample.loaded (VDict Sample.custom_paths [])) default_config Sample.colab
          = (Raise (SystemExit 3), w')
          ∧ exit_status (fst (main (Sample.bare (VDict Sample.custom_paths []))
                                (Sample.loaded (VDict Sample.custom_paths []))
                                default_config Sample.colab)) = 3
          ∧ (∃ earlier, log w' = earlier ++ [train_not_found])
          ∧ os.isdir w' "runs/exp1/ckpt" = true
          ∧ os.isdir w' "/content/runs/logs" = true
          ∧ ∃ before after,
              calls w' = before
                         ++ [CallMakedirs (VStr "runs/exp1/ckpt");
                             CallMakedirs (VStr "/content/runs/logs");
                             CallImport "from train import train"]
                         ++ after.
Proof.
  split; [exact I|].
  apply (unresolved_train_exits_3 (Sample.bare (VDict Sample.custom_paths []))
           (Sample.loaded (VDict Sample.custom_paths [])) default_config Sample.colab
           (VDict Sample.custom_paths []) "runs/exp1/ckpt" "/content/runs/logs").
  - apply colab_config_file.
  - apply colab_valid.
  - exact I.
Defined.

Lemma fallback_logs_seed_set_witness :
  import_yaml (Sample.without_numpy (VDict {[ "seed" := VInt 42 ]} []))
  = Ret (Sample.yaml_giving (VDict {[ "seed" := VInt 42 ]} []))
  ∧ fst (import_train_seed_module (Sample.without_numpy (VDict {[ "seed" := VInt 42 ]} []))
           Sample.boot)
    = Raise (Exc ModuleNotFoundError)
  ∧ ∃ g, load (Sample.without_numpy (VDict {[ "seed" := VInt 42 ]} [])) Sample.boot
         = (Ret g, Sample.boot)
         ∧ set_seed_bound g = Fallback
         ∧ (∀ n w, set_seed g n w = (Ret tt, fallback_called n w))
         ∧ ∀ path w m others v n,
             config_file_holds g w path (VDict m others) →
             m !! "seed" = Some v → v ≠ VNone →
             int (interp (Sample.without_numpy (VDict {[ "seed" := VInt 42 ]} []))) v
             = inr n →
             ∃ ws, seed_step (Sample.without_numpy (VDict {[ "seed" := VInt 42 ]} [])) g
                     (VDict m others) (configured w) = (Ret tt, ws)
                   ∧ carries_on (Sample.without_numpy (VDict {[ "seed" := VInt 42 ]} []))
                       path (VDict m others) ws
                       (main (Sample.without_numpy (VDict {[ "seed" := VInt 42 ]} []))
                          g path w)
                   ∧ calls ws = calls w ++ [CallSetSeed n]
                   ∧ log ws = log w ++ [seed_set v]
                   ∧ stdout ws
                     = stdout w
                       ++ ["train_seed.set_seed not available; skipping seed setup"]
                   ∧ py_random ws = py_random w
                   ∧ np_random ws = np_random w
                   ∧ torch_done ws = torch_done w.
Proof.
  split; [reflexivity|]. split; [reflexivity|].
  apply (fallback_logs_seed_set (Sample.without_numpy (VDict {[ "seed" := VInt 42 ]} []))
           (Sample.yaml_giving (VDict {[ "seed" := VInt 42 ]} [])) ModuleNotFoundError
           Sample.boot); reflexivity.
Defined.

(** C10 as stated fails on a seed that does not convert: with the
    fallback bound and [seed: abc], [main] logs the warning "Failed to set
    seed" and no record "Set deterministic seed". *)
Lemma fallback_with_unconvertible_seed :
  load (Sample.without_numpy (VDict {[ "seed" := VStr "abc" ]} [])) Sample.boot
  = (Ret (Sample.loaded_fallback (VDict {[ "seed" := VStr "abc" ]} [])), Sample.boot)
  ∧ log (snd (main (Sample.without_numpy (VDict {[ "seed" := VStr "abc" ]} []))
                (Sample.loaded_fallback (VDict {[ "seed" := VStr "abc" ]} []))
                default_config Sample.boot))
    = [seed_failed ValueError; train_not_found].
Proof. repeat split. Qed.

(** Paths are walked as they are given: nothing exists behind a missing
    directory, whatever follows it; a regular file is not opened under a
    name with a slash at its end; [os.makedirs] stops at a regular file on
    its way and makes what it passes through before a [..]; it takes
    [bytes] for a path; and a component of more than 255 bytes is an
    error of the existence test itself. *)
Example paths_are_walked_as_given :
  fst (os.exists_ "missing/../configs/banksformer_free.yaml" Sample.boot) = Ret false
  ∧ fst (os.read_text "configs/banksformer_free.yaml/" Sample.boot)
    = Raise (Exc NotADirectoryError)
  ∧ fst (os.read_text "missing/../configs/banksformer_free.yaml" Sample.boot)
    = Raise (Exc FileNotFoundError)
  ∧ fst (os.makedirs (VStr "notes/../b") Sample.colab) = Raise (Exc NotADirectoryError)
  ∧ os.isdir (snd (os.makedirs (VStr "c/../d") Sample.colab)) "c" = true
  ∧ os.isdir (snd (os.makedirs (VStr "c/../d") Sample.colab)) "d" = true
  ∧ fst (os.makedirs (VBytes "ck") Sample.colab) = Ret tt
  ∧ fst (os.exists_ (string_of_list_ascii (repeat "a"%char 256)) Sample.boot)
    = Raise (Exc OSError).
Proof. vm_compute. repeat split. Qed.

(** The sample interpreter keeps the limit of 4300 digits and reads
    signs, white space and underscores. *)
Example sample_interpreter_reads :
  int Sample.ascii_interpreter (VStr (string_of_list_ascii (repeat "1"%char 4301))) = inl ValueError
  ∧ int Sample.ascii_interpreter
      (VStr (string_of_list_ascii (repeat "0"%char 4299 ++ ["1"%char]))) = inr 1
  ∧ int Sample.ascii_interpreter (VStr " -4_2 ") = inr (-42)
  ∧ int Sample.ascii_interpreter (VBytes "42") = inr 42
  ∧ int Sample.ascii_interpreter (VStr "4__2") = inl ValueError
  ∧ int Sample.ascii_interpreter (VStr "0x10") = inl ValueError.
Proof. vm_compute. repeat split. Qed.

(** With a [train] function in the project, the script runs it. *)
Example script_runs_train :
  fst (script (Sample.with_train (VDict {[ "seed" := VInt 42 ]} [])) Sample.boot) = Ret tt
  ∧ stdout (snd (script (Sample.with_train (VDict {[ "seed" := VInt 42 ]} [])) Sample.boot))
    = ["training"]
  ∧ np_random (snd (script (Sample.with_train (VDict {[ "seed" := VInt 42 ]} []))
                      Sample.boot))
    = fresh 42.
Proof. repeat split. Qed.

End Samples.
(** * Further properties of the two scripts *)

(** ** [set_seed] and torch *)

Section SetSeedTorch.

Import train_seed.
Local Open Scope list_scope.

(** Inside numpy's range [set_seed] is the two seeding calls followed by
    the guarded torch block. *)
Lemma set_seed_in_range g seed w :
  0 ≤ seed < 2 ^ 32 →
  set_seed g seed w
  = match torch g with
    | Some t =>
        try_except
          (torch_do t (ManualSeed seed) >>
           torch_do t (CudaManualSeedAll seed) >>
           torch_do t (SetCudnnDeterministic true) >>
           torch_do t (SetCudnnBenchmark false))
          (fun _ => ret tt) (seeded seed w)
    | None => (Ret tt, seeded seed w)
    end.
Proof.
  intros Hr. apply seed_in_range_iff in Hr.
  unfold set_seed, numpy.random_seed, random.seed, note, modify, bind at 1 2 3 4 5; simpl.
  rewrite Hr; simpl.
  assert (Hw : with_np_random (fresh seed)
                 (with_calls (((calls w ++ [CallSetSeed seed]) ++ [CallRandomSeed seed])
                                ++ [CallNumpySeed seed])
                    (with_py_random (fresh (Z.abs seed)) w))
               = seeded seed w).
  { unfold seeded. destruct w; simpl. rewrite <- !app_assoc. reflexivity. }
  unfold with_np_random, with_calls, with_py_random in *; simpl in *.
  rewrite Hw. destruct (torch g); reflexivity.
Qed.

(** The torch block makes the requests in order and stops at the first
    one torch refuses. *)
Lemma torch_block_prefix t seed w :
  ∃ k, (k ≤ 4)%nat
       ∧ try_except
           (torch_do t (ManualSeed seed) >>
            torch_do t (CudaManualSeedAll seed) >>
            torch_do t (SetCudnnDeterministic true) >>
            torch_do t (SetCudnnBenchmark false))
           (fun _ => ret tt) w
         = (Ret tt, with_torch_done (torch_done w ++ take k (torch_requests seed)) w)
       ∧ (∀ j a, (j < k)%nat → torch_requests seed !! j = Some a →
                 refuses t a (torch_done w ++ take j (torch_requests seed)) = None)
       ∧ (∀ a, torch_requests seed !! k = Some a →
               is_Some (refuses t a (torch_done w ++ take k (torch_requests seed)))).
Proof.
  destruct w as [py np td f lc lg so cs].
  unfold try_except, bind, torch_do, ret; simpl.
  destruct (refuses t (ManualSeed seed) td) as [e1|] eqn:H1; simpl.
  { exists 0%nat. simpl. rewrite app_nil_r. repeat split; [lia| |].
    - intros j a Hj. lia.
    - intros a [= <-]. rewrite H1. now eexists. }
  destruct (refuses t (CudaManualSeedAll seed) (td ++ [ManualSeed seed])) as [e2|] eqn:H2;
    simpl.
  { exists 1%nat. simpl. repeat split; [lia| |].
    - intros j a Hj Ha. destruct j as [|j]; [|lia].
      simpl in *. injection Ha as <-. now rewrite app_nil_r.
    - intros a [= <-]. rewrite H2. now eexists. }
  destruct (refuses t (SetCudnnDeterministic true)
              ((td ++ [ManualSeed seed]) ++ [CudaManualSeedAll seed])) as [e3|] eqn:H3;
    simpl.
  { exists 2%nat. simpl. rewrite <- !app_assoc in *. simpl in *.
    repeat split; [lia| |].
    - intros j a Hj Ha. destruct j as [|[|j]]; [| |lia]; simpl in *;
        injection Ha as <-; [now rewrite app_nil_r|exact H2].
    - intros a [= <-]. rewrite H3. now eexists. }
  destruct (refuses t (SetCudnnBenchmark false)
              (((td ++ [ManualSeed seed]) ++ [CudaManualSeedAll seed])
                 ++ [SetCudnnDeterministic true])) as [e4|] eqn:H4; simpl.
  { exists 3%nat. simpl. rewrite <- !app_assoc in *. simpl in *.
    repeat split; [lia| |].
    - intros j a Hj Ha. destruct j as [|[|[|j]]]; [| | |lia]; simpl in *;
        injection Ha as <-; [now rewrite app_nil_r|exact H2|exact H3].
    - intros a [= <-]. rewrite H4. now eexists. }
  exists 4%nat. simpl. rewrite <- !app_assoc in *. simpl in *.
  repeat split; [lia| |].
  - intros j a Hj Ha. destruct j as [|[|[|[|j]]]]; [| | | |lia]; simpl in *;
      injection Ha as <-; [now rewrite app_nil_r|exact H2|exact H3|exact H4].
  - intros a Ha. discriminate.
Qed.

End SetSeedTorch.

Section SetSeedExtras.

Import train_seed.
Local Open Scope list_scope.

(** X1: with a torch that accepts every setting and a seed numpy accepts,
    [set_seed] returns having made exactly the four torch settings, in
    this order: CPU seed, CUDA seed for all devices, cuDNN deterministic
    on, cuDNN benchmark off. *)
Theorem set_seed_configures_torch (g : globals) (t : torch_module) (seed : Z) (w : World) :
  torch g = Some t →
  (∀ a done, refuses t a done = None) →
  0 ≤ seed < 2 ^ 32 →
  set_seed g seed w
  = (Ret tt, with_torch_done (torch_done w ++ torch_requests seed) (seeded seed w)).
Proof.
  intros Ht Hacc Hr. rewrite (set_seed_in_range g seed w Hr), Ht.
  unfold try_except, bind, torch_do, ret. simpl.
  repeat (rewrite Hacc; simpl).
  destruct w; simpl. rewrite <- !app_assoc. reflexivity.
Qed.

Lemma set_seed_configures_torch_witness :
  set_seed {| torch := Some Sample.torch_accepting |} 42 Sample.boot
  = (Ret tt, with_torch_done (torch_done Sample.boot ++ torch_requests 42)
               (seeded 42 Sample.boot)).
Proof.
  apply (set_seed_configures_torch {| torch := Some Sample.torch_accepting |}
           Sample.torch_accepting 42 Sample.boot).
  - reflexivity.
  - intros a done. reflexivity.
  - lia.
Defined.

(** X2: with torch present and a seed numpy accepts, [set_seed] returns
    whatever torch refuses, and the torch settings it has made are the
    first [k] of its four requests: every request before the [k]-th was
    accepted, the [k]-th, if there is one, was refused, and none after it
    was made.  So a refused CUDA seed leaves the cuDNN flags unset. *)
Theorem set_seed_stops_at_first_refusal (g : globals) (t : torch_module) (seed : Z)
    (w : World) :
  torch g = Some t →
  0 ≤ seed < 2 ^ 32 →
  ∃ k, (k ≤ 4)%nat
       ∧ set_seed g seed w
         = (Ret tt, with_torch_done (torch_done w ++ take k (torch_requests seed))
                      (seeded seed w))
       ∧ (∀ j a, (j < k)%nat → torch_requests seed !! j = Some a →
                 refuses t a (torch_done w ++ take j (torch_requests seed)) = None)
       ∧ (∀ a, torch_requests seed !! k = Some a →
               is_Some (refuses t a (torch_done w ++ take k (torch_requests seed)))).
Proof.
  intros Ht Hr. rewrite (set_seed_in_range g seed w Hr), Ht.
  destruct (torch_block_prefix t seed (seeded seed w)) as (k & Hk & Hb & Hacc & Href).
  assert (Hd : torch_done (seeded seed w) = torch_done w) by now destruct w.
  rewrite Hd in *.
  exists k. split; [exact Hk|]. split; [|split; assumption].
  rewrite Hb. now destruct w.
Qed.

Lemma set_seed_stops_at_first_refusal_witness :
  ∃ k, (k ≤ 4)%nat
       ∧ set_seed {| torch := Some Sample.torch_cpu_only |} 42 Sample.boot
         = (Ret tt, with_torch_done (torch_done Sample.boot ++ take k (torch_requests 42))
                      (seeded 42 Sample.boot))
       ∧ (∀ j a, (j < k)%nat → torch_requests 42 !! j = Some a →
                 refuses Sample.torch_cpu_only a
                   (torch_done Sample.boot ++ take j (torch_requests 42)) = None)
       ∧ (∀ a, torch_requests 42 !! k = Some a →
               is_Some (refuses Sample.torch_cpu_only a
                          (torch_done Sample.boot ++ take k (torch_requests 42)))).
Proof.
  apply (set_seed_stops_at_first_refusal {| torch := Some Sample.torch_cpu_only |}
           Sample.torch_cpu_only 42 Sample.boot).
  - reflexivity.
  - lia.
Defined.

(** X3: whatever the seed, whatever torch is and whether the call returns
    or raises, [set_seed] seeds [random] from the absolute value of the
    seed, makes its calls to [random.seed] and [numpy.random.seed] in that
    order, and neither prints, nor logs, nor touches a file. *)
Theorem set_seed_frame (g : globals) (seed : Z) (w : World) :
  py_random (snd (set_seed g seed w)) = fresh (Z.abs seed)
  ∧ calls (snd (set_seed g seed w))
    = calls w ++ [CallSetSeed seed; CallRandomSeed seed; CallNumpySeed seed]
  ∧ fs (snd (set_seed g seed w)) = fs w
  ∧ log (snd (set_seed g seed w)) = log w
  ∧ log_config (snd (set_seed g seed w)) = log_config w
  ∧ stdout (snd (set_seed g seed w)) = stdout w.
Proof.
  destruct (decide (0 ≤ seed < 2 ^ 32)) as [Hr|Hr].
  - destruct (set_seed_returns g seed w Hr) as [done ->]. now destruct w.
  - rewrite (set_seed_rejected g seed w Hr). now destruct w.
Qed.

(** X4: for a seed outside 0 .. 2^32 - 1, [set_seed] raises the
    [ValueError] of [numpy.random.seed]; numpy's generator keeps its
    state and torch, present or not, is not asked for anything. *)
Theorem set_seed_out_of_range (g : globals) (seed : Z) (w : World) :
  ¬ (0 ≤ seed < 2 ^ 32) →
  fst (set_seed g seed w) = Raise (Exc ValueError)
  ∧ np_random (snd (set_seed g seed w)) = np_random w
  ∧ torch_done (snd (set_seed g seed w)) = torch_done w.
Proof.
  intros Hr. rewrite (set_seed_rejected g seed w Hr). now destruct w.
Qed.

Lemma set_seed_out_of_range_witness :
  ¬ (0 ≤ -7 < 2 ^ 32)
  ∧ fst (set_seed {| torch := Some Sample.torch_accepting |} (-7) Sample.boot)
    = Raise (Exc ValueError)
  ∧ np_random (snd (set_seed {| torch := Some Sample.torch_accepting |} (-7) Sample.boot))
    = np_random Sample.boot
  ∧ torch_done (snd (set_seed {| torch := Some Sample.torch_accepting |} (-7) Sample.boot))
    = torch_done Sample.boot.
Proof.
  split; [lia|].
  apply (set_seed_out_of_range {| torch := Some Sample.torch_accepting |} (-7) Sample.boot).
  lia.
Defined.

End SetSeedExtras.

(** ** Loading the modules and running them as scripts *)

Section Loading.

Local Open Scope list_scope.

(** X5: numpy is a hard dependency of [train_seed]: when [import numpy]
    raises, executing the module raises the same, whether torch could be
    imported or not, and the world is as it was. *)
Theorem train_seed_needs_numpy (env : Env) (r : raised) (w : World) :
  (∀ c, import_torch env ≠ Raise (SystemExit c)) →
  import_numpy env = Raise r →
  train_seed.load env w = (Raise r, w).
Proof.
  intros Ht Hn.
  unfold train_seed.load, try_except, bind, import, ret. rewrite Hn.
  destruct (import_torch env) as [t|[e|c]]; simpl; try reflexivity.
  now destruct (Ht c).
Qed.

Lemma train_seed_needs_numpy_witness :
  train_seed.load (Sample.without_numpy VNone) Sample.boot
  = (Raise (Exc ModuleNotFoundError), Sample.boot).
Proof.
  apply (train_seed_needs_numpy (Sample.without_numpy VNone) (Exc ModuleNotFoundError)
           Sample.boot).
  - intros c. discriminate.
  - reflexivity.
Defined.

(** X6: run as a script with numpy installed, [train_seed.py] returns
    normally whatever torch is and does: both generators are seeded with
    42 and one line is printed, which says "True" exactly when
    [import torch] succeeded. *)
Theorem train_seed_script_runs (env : Env) (w : World) :
  (∀ c, import_torch env ≠ Raise (SystemExit c)) →
  import_numpy env = Ret tt →
  ∃ g w', train_seed.load env w = (Ret g, w)
          ∧ (train_seed.torch g = None ↔ ∃ e, import_torch env = Raise (Exc e))
          ∧ train_seed.script env w = (Ret tt, w')
          ∧ py_random w' = fresh 42
          ∧ np_random w' = fresh 42
          ∧ stdout w' = stdout w ++ [availability_line g].
Proof.
  intros Ht Hn.
  assert (Hload : ∃ g, train_seed.load env w = (Ret g, w)
                       ∧ (train_seed.torch g = None ↔ ∃ e, import_torch env = Raise (Exc e))).
  { unfold train_seed.load, try_except, bind, import, ret. rewrite Hn.
    destruct (import_torch env) as [t|[e|c]]; simpl.
    - eexists; split; [reflexivity|]. simpl. split; [discriminate|].
      intros [e He]. discriminate.
    - eexists; split; [reflexivity|]. simpl. split; [now exists e|reflexivity].
    - now destruct (Ht c). }
  destruct Hload as (g & Hload & Hiff).
  assert (Hr : 0 ≤ 42 < 2 ^ 32) by lia.
  destruct (set_seed_returns g 42 w Hr) as [done Hs].
  exists g. eexists. split; [exact Hload|]. split; [exact Hiff|].
  split.
  - unfold train_seed.script.
    rewrite (bind_returns _ _ _ _ _ Hload).
    rewrite (bind_returns _ _ _ _ _ Hs).
    reflexivity.
  - now destruct w.
Qed.

Lemma train_seed_script_runs_witness :
  ∃ g w', train_seed.load (Sample.bare VNone) Sample.boot = (Ret g, Sample.boot)
          ∧ (train_seed.torch g = None
             ↔ ∃ e, import_torch (Sample.bare VNone) = Raise (Exc e))
          ∧ train_seed.script (Sample.bare VNone) Sample.boot = (Ret tt, w')
          ∧ py_random w' = fresh 42
          ∧ np_random w' = fresh 42
          ∧ stdout w' = stdout Sample.boot ++ [availability_line g].
Proof.
  apply (train_seed_script_runs (Sample.bare VNone) Sample.boot).
  - intros c. discriminate.
  - reflexivity.
Defined.

(** X7: without PyYAML, [train_colab.py] prints the installation hint and
    raises the import's exception again: [main] is never entered, nothing
    is logged, seeded or created. *)
Theorem train_colab_needs_yaml (env : Env) (e : exception) (w : World) :
  import_yaml env = Raise (Exc e) →
  train_colab.script env w
  = (Raise (Exc e),
     with_stdout (stdout w ++ ["PyYAML is required. Install with: pip install pyyaml"]) w).
Proof.
  intros Hy.
  unfold train_colab.script, train_colab.load, try_except, bind, import, print, modify,
    raise. rewrite Hy. reflexivity.
Qed.

Lemma train_colab_needs_yaml_witness :
  train_colab.script Sample.without_yaml Sample.boot
  = (Raise (Exc ModuleNotFoundError),
     with_stdout (stdout Sample.boot
                  ++ ["PyYAML is required. Install with: pip install pyyaml"])
       Sample.boot).
Proof.
  apply (train_colab_needs_yaml Sample.without_yaml ModuleNotFoundError Sample.boot).
  reflexivity.
Defined.

(** X8: with PyYAML, [train_seed.py] on the module path and numpy
    installed, [set_seed] is bound to the function of [train_seed], not to
    the fallback, also when torch cannot be imported: the module's
    [torch] is then [None]. *)
Theorem train_colab_binds_train_seed (env : Env) (y : yaml_module) (w : World) :
  import_yaml env = Ret y →
  import_train_seed env = true →
  import_numpy env = Ret tt →
  (∀ c, import_torch env ≠ Raise (SystemExit c)) →
  train_colab.load env w
  = (Ret {| train_colab.yaml := y;
            train_colab.set_seed_bound :=
              train_colab.FromTrainSeed
                {| train_seed.torch := match import_torch env with
                                       | Ret t => Some t
                                       | Raise _ => None
                                       end |} |}, w).
Proof.
  intros Hy Hts Hn Ht.
  unfold train_colab.load, train_colab.import_train_seed_module, train_seed.load,
    try_except, bind, import, ret.
  rewrite Hy, Hts, Hn.
  destruct (import_torch env) as [t|[e|c]]; simpl; try reflexivity.
  now destruct (Ht c).
Qed.

Lemma train_colab_binds_train_seed_witness :
  train_colab.load (Sample.bare VNone) Sample.boot
  = (Ret {| train_colab.yaml := Sample.yaml_giving VNone;
            train_colab.set_seed_bound :=
              train_colab.FromTrainSeed {| train_seed.torch := None |} |}, Sample.boot).
Proof.
  apply (train_colab_binds_train_seed (Sample.bare VNone) (Sample.yaml_giving VNone)
           Sample.boot).
  - reflexivity.
  - reflexivity.
  - reflexivity.
  - intros c. discriminate.
Defined.

(** X9: run as a script, [train_colab.py] takes the configuration path
    from the environment variable BANKSFORMER_CONFIG and, without it, the
    path "configs/banksformer_free.yaml"; when nothing exists at that
    path the process ends with status 2, the error logged and no file
    touched. *)
Theorem script_missing_config (env : Env) (g : train_colab.globals) (path : string)
    (w : World) :
  train_colab.load env w = (Ret g, w) →
  path = match environ env !! "BANKSFORMER_CONFIG" with
         | Some p => p
         | None => "configs/banksformer_free.yaml"
         end →
  fst (os.exists_ path w) = Ret false →
  train_colab.script env w
  = (Raise (SystemExit 2), with_log (log w ++ [config_not_found path]) (configured w))
  ∧ exit_status (fst (train_colab.script env w)) = 2.
Proof.
  intros Hload -> Hmiss.
  assert (Hs : train_colab.script env w
               = (Raise (SystemExit 2),
                  with_log (log w ++ [config_not_found
                                        (match environ env !! "BANKSFORMER_CONFIG" with
                                         | Some p => p
                                         | None => "configs/banksformer_free.yaml"
                                         end)])
                    (configured w))).
  { unfold train_colab.script. rewrite (bind_returns _ _ _ _ _ Hload).
    rewrite main_steps. unfold train_colab.main_by_steps.
    now rewrite (bind_raises _ _ _ _ _ (locate_config_missing _ w Hmiss)). }
  rewrite Hs. split; reflexivity.
Qed.

Lemma script_missing_config_witness :
  train_colab.script (Sample.bare VNone)
    (with_fs ∅ Sample.boot)
  = (Raise (SystemExit 2),
     with_log (log (with_fs ∅ Sample.boot)
               ++ [config_not_found "configs/banksformer_free.yaml"])
       (configured (with_fs ∅ Sample.boot)))
  ∧ exit_status (fst (train_colab.script (Sample.bare VNone) (with_fs ∅ Sample.boot))) = 2.
Proof.
  apply (script_missing_config (Sample.bare VNone) (Sample.loaded VNone)
           "configs/banksformer_free.yaml" (with_fs ∅ Sample.boot)).
  - reflexivity.
  - reflexivity.
  - reflexivity.
Defined.

End Loading.

(** ** Failures of [main] before it creates anything *)

Section EarlyFailures.

Import train_colab.
Local Open Scope list_scope.

(** Reading the configuration after a successful existence test. *)
Lemma main_loads env g path w :
  fst (os.exists_ path w) = Ret true →
  main env g path w
  = (let* config := load_config g path in
     seed_step env g config >> after_seed env path config) (configured w).
Proof.
  intros Hex.
  rewrite main_steps. unfold main_by_steps.
  rewrite (bind_returns _ _ _ _ _ (locate_config_found path w Hex)).
  reflexivity.
Qed.

Lemma read_text_configured path w :
  fst (os.read_text path (configured w)) = fst (os.read_text path w).
Proof. unfold os.read_text. simpl. now rewrite fs_configured, cwd_configured. Qed.

Lemma read_text_world path w : snd (os.read_text path w) = w.
Proof. reflexivity. Qed.

(** X10: when the configuration path names a directory, [main] does not
    take the exit with status 2: the existence test passes, opening the
    path raises [IsADirectoryError], and that exception leaves [main] with
    nothing logged, seeded or created. *)
Theorem main_config_is_directory (env : Env) (g : globals) (path : string) (w : World) :
  os.stat_node w path = inr Dir →
  main env g path w = (Raise (Exc IsADirectoryError), configured w)
  ∧ exit_status (fst (main env g path w)) = 1.
Proof.
  intros Hd.
  assert (Hex : fst (os.exists_ path w) = Ret true)
    by (now rewrite (exists_of_stat path w Dir Hd)).
  assert (Hm : main env g path w = (Raise (Exc IsADirectoryError), configured w)).
  { rewrite (main_loads env g path w Hex).
    assert (Hl : load_config g path (configured w)
                 = (Raise (Exc IsADirectoryError), configured w)).
    { unfold load_config, os.read_text, os.open_read, bind.
      rewrite fs_configured, cwd_configured.
      unfold os.stat_node in Hd.
      destruct (os.stat (cwd w) (fs w) (os.split_slash path)) as [e|[q [c|]]];
        try discriminate. reflexivity. }
    now rewrite (bind_raises _ _ _ _ _ Hl). }
  rewrite Hm. split; reflexivity.
Qed.

Lemma main_config_is_directory_witness :
  main (Sample.bare VNone) (Sample.loaded VNone) "configs/" Sample.boot
  = (Raise (Exc IsADirectoryError), configured Sample.boot)
  ∧ exit_status (fst (main (Sample.bare VNone) (Sample.loaded VNone) "configs/"
                        Sample.boot)) = 1.
Proof.
  apply (main_config_is_directory (Sample.bare VNone) (Sample.loaded VNone) "configs/"
           Sample.boot).
  reflexivity.
Defined.

(** X11: an exception of the YAML parser is not handled: it leaves
    [load_config] and [main] as it is, before any seeding and before any
    directory is made. *)
Theorem main_parse_error_propagates (env : Env) (g : globals) (path text : string)
    (e : exception) (w : World) :
  os.stat_node w path = inr (File text) →
  safe_load (yaml g) text = inl e →
  load_config g path w = (Raise (Exc e), w)
  ∧ main env g path w = (Raise (Exc e), configured w).
Proof.
  intros Hf Hy.
  assert (Hex : fst (os.exists_ path w) = Ret true)
    by (now rewrite (exists_of_stat path w _ Hf)).
  assert (Hl : ∀ w', fs w' = fs w → cwd w' = cwd w →
                     load_config g path w' = (Raise (Exc e), w')).
  { intros w' Hfs Hcwd. unfold load_config, os.read_text, os.open_read, bind, lift, raise.
    rewrite Hfs, Hcwd. unfold os.stat_node in Hf.
    destruct (os.stat (cwd w) (fs w) (os.split_slash path)) as [e'|[q [c|]]];
      try discriminate.
    injection Hf as ->. now rewrite Hy. }
  split; [now apply Hl|].
  rewrite (main_loads env g path w Hex).
  now rewrite (bind_raises _ _ _ _ _ (Hl _ (fs_configured w) (cwd_configured w))).
Qed.

Lemma main_parse_error_propagates_witness :
  load_config {| yaml := Sample.yaml_rejecting; set_seed_bound := Fallback |}
    default_config Sample.boot
  = (Raise (Exc YAMLError), Sample.boot)
  ∧ main (Sample.bare VNone) {| yaml := Sample.yaml_rejecting; set_seed_bound := Fallback |}
      default_config Sample.boot
    = (Raise (Exc YAMLError), configured Sample.boot).
Proof.
  apply (main_parse_error_propagates (Sample.bare VNone)
           {| yaml := Sample.yaml_rejecting; set_seed_bound := Fallback |}
           default_config "seed: 42" YAMLError Sample.boot).
  - reflexivity.
  - reflexivity.
Defined.

(** X12: a configuration file whose document is not a mapping (an empty
    file gives [None], a sequence gives a list) makes [main] raise
    [AttributeError] at [config.get("seed", None)], before any seeding and
    before any directory is made. *)
Theorem main_config_not_a_mapping (env : Env) (g : globals) (path : string)
    (config : value) (w : World) :
  config_file_holds g w path config →
  is_mapping config = false →
  main env g path w = (Raise (Exc AttributeError), configured w).
Proof.
  intros Hfile Hm.
  rewrite (main_reaches_seed_step env g path w config Hfile).
  assert (Hs : seed_step env g config (configured w)
               = (Raise (Exc AttributeError), configured w))
    by (destruct config; try discriminate; reflexivity).
  now rewrite (bind_raises _ _ _ _ _ Hs).
Qed.

Lemma main_config_not_a_mapping_witness :
  main (Sample.bare VNone) (Sample.loaded VNone) default_config Sample.boot
  = (Raise (Exc AttributeError), configured Sample.boot).
Proof.
  apply (main_config_not_a_mapping (Sample.bare VNone) (Sample.loaded VNone)
           default_config VNone Sample.boot).
  - apply sample_config_file.
  - reflexivity.
Defined.

End EarlyFailures.

(** ** The directory step, when it fails and when it is repeated *)

Section DirectoryExtras.

Import train_colab.
Local Open Scope list_scope.

(** X13: when the [paths] entry of the configuration is not a mapping
    ([paths: null], a string, a list), [main] raises [AttributeError] at
    [paths.get] after its seeding step: no [os.makedirs] call is made and
    the file system is as it was. *)
Theorem main_paths_not_a_mapping (env : Env) (g : globals) (path : string) (w : World)
    (m : gmap string value) (others : list (value * value)) (v : value) :
  config_file_holds g w path (VDict m others) →
  m !! "paths" = Some v →
  is_mapping v = false →
  ∃ ws, seed_step env g (VDict m others) (configured w) = (Ret tt, ws)
        ∧ main env g path w = (Raise (Exc AttributeError), ws)
        ∧ fs ws = fs w.
Proof.
  intros Hfile Hp Hv.
  destruct (seed_step_returns env g m others (configured w)) as (ws & Hs & Hfs & _).
  rewrite fs_configured in Hfs.
  exists ws. split; [exact Hs|]. split; [|exact Hfs].
  rewrite (main_reaches_seed_step env g path w _ Hfile).
  rewrite (bind_returns _ _ _ _ _ Hs).
  unfold after_seed, ensure_directories, bind, lift, get, ret, raise. rewrite Hp.
  destruct v; try discriminate; reflexivity.
Qed.

Lemma main_paths_not_a_mapping_witness :
  ∃ ws, seed_step (Sample.bare (VDict {[ "paths" := VNone ]} []))
          (Sample.loaded (VDict {[ "paths" := VNone ]} []))
          (VDict {[ "paths" := VNone ]} []) (configured Sample.boot) = (Ret tt, ws)
        ∧ main (Sample.bare (VDict {[ "paths" := VNone ]} []))
            (Sample.loaded (VDict {[ "paths" := VNone ]} [])) default_config Sample.boot
          = (Raise (Exc AttributeError), ws)
        ∧ fs ws = fs Sample.boot.
Proof.
  apply (main_paths_not_a_mapping (Sample.bare (VDict {[ "paths" := VNone ]} []))
           (Sample.loaded (VDict {[ "paths" := VNone ]} [])) default_config Sample.boot
           {[ "paths" := VNone ]} [] VNone).
  - apply sample_config_file.
  - reflexivity.
  - reflexivity.
Defined.

(** X14: when the checkpoint directory the configuration gives is neither
    a [str] nor [bytes] (a number, [null], a list), [os.makedirs] raises
    [TypeError] and so does [main]: nothing is created, and the log
    directory is not attempted. *)
Theorem main_checkpoints_not_a_string (env : Env) (g : globals) (path : string)
    (w : World) (m : gmap string value) (others : list (value * value))
    (vc vl : value) :
  config_file_holds g w path (VDict m others) →
  described_dir m "checkpoints" "checkpoints" = Some vc →
  described_dir m "logs" "logs" = Some vl →
  (∀ s, vc ≠ VStr s) →
  (∀ b, vc ≠ VBytes b) →
  ∃ ws, seed_step env g (VDict m others) (configured w) = (Ret tt, ws)
        ∧ main env g path w
          = (Raise (Exc TypeError), with_calls (calls ws ++ [CallMakedirs vc]) ws)
        ∧ fs ws = fs w.
Proof.
  intros Hfile Hc Hl Hv Hb.
  destruct (seed_step_returns env g m others (configured w)) as (ws & Hs & Hfs & _).
  rewrite fs_configured in Hfs.
  exists ws. split; [exact Hs|]. split; [|exact Hfs].
  rewrite (main_reaches_seed_step env g path w _ Hfile).
  rewrite (bind_returns _ _ _ _ _ Hs).
  unfold after_seed. unfold bind at 1.
  rewrite (ensure_directories_calls m others vc vl ws Hc Hl).
  unfold bind, os.makedirs, note, modify, raise; simpl.
  destruct vc; try reflexivity.
  - now destruct (Hv s).
  - now destruct (Hb b).
Qed.

Lemma main_checkpoints_not_a_string_witness :
  ∃ ws, seed_step
          (Sample.bare (VDict {[ "paths" := VDict {[ "checkpoints" := VInt 5 ]} [] ]} []))
          (Sample.loaded (VDict {[ "paths" := VDict {[ "checkpoints" := VInt 5 ]} [] ]} []))
          (VDict {[ "paths" := VDict {[ "checkpoints" := VInt 5 ]} [] ]} [])
          (configured Sample.boot) = (Ret tt, ws)
        ∧ main (Sample.bare (VDict {[ "paths" := VDict {[ "checkpoints" := VInt 5 ]} [] ]} []))
            (Sample.loaded (VDict {[ "paths" := VDict {[ "checkpoints" := VInt 5 ]} [] ]} []))
            default_config Sample.boot
          = (Raise (Exc TypeError), with_calls (calls ws ++ [CallMakedirs (VInt 5)]) ws)
        ∧ fs ws = fs Sample.boot.
Proof.
  apply (main_checkpoints_not_a_string
           (Sample.bare (VDict {[ "paths" := VDict {[ "checkpoints" := VInt 5 ]} [] ]} []))
           (Sample.loaded (VDict {[ "paths" := VDict {[ "checkpoints" := VInt 5 ]} [] ]} []))
           default_config Sample.boot
           {[ "paths" := VDict {[ "checkpoints" := VInt 5 ]} [] ]} [] (VInt 5) (VStr "logs")).
  - apply sample_config_file.
  - reflexivity.
  - reflexivity.
  - intros s. discriminate.
  - intros b. discriminate.
Defined.

End DirectoryExtras.

Section DirectoryInvariants.

Import train_colab.
Local Open Scope list_scope.

(** X15: when the checkpoint directory is made or found and a regular
    file sits at the path of the log directory, [main] raises the
    [FileExistsError] of the second [os.makedirs]; the checkpoint
    directory has been created by then and stays, and [main] ends there,
    before any import of [train]. *)
Theorem main_logs_directory_blocked (env : Env) (g : globals) (path : string)
    (w : World) (m : gmap string value) (others : list (value * value))
    (cs ls content : string) (f1 : gmap (list string) node) :
  config_file_holds g w path (VDict m others) →
  described_dir m "checkpoints" "checkpoints" = Some (VStr cs) →
  described_dir m "logs" "logs" = Some (VStr ls) →
  os.dot_ended cs = false →
  os.makedirs_fs w cs (fs w) = (None, f1) →
  os.stat_node w ls = inr (File content) →
  ∃ w', main env g path w = (Raise (Exc FileExistsError), w')
        ∧ fs w' = f1
        ∧ os.isdir w' cs = true
        ∧ os.stat_node w' ls = inr (File content)
        ∧ ∃ before, calls w' = before ++ [CallMakedirs (VStr cs); CallMakedirs (VStr ls)].
Proof.
  intros Hfile Hc Hl Hdot Hm1 Hfile_at.
  destruct (seed_step_returns env g m others (configured w))
    as (ws & Hs & Hfs & _ & Hcwd & Hroom).
  rewrite fs_configured in Hfs. rewrite cwd_configured in Hcwd.
  rewrite stack_room_configured in Hroom.
  assert (Hm1s : os.makedirs_fs ws cs (fs ws) = (None, f1)).
  { rewrite Hfs. now rewrite (makedirs_fs_frame w ws). }
  assert (Hr1 := makedirs_returns cs ws f1 Hm1s).
  set (w1 := with_fs f1 (with_calls (calls ws ++ [CallMakedirs (VStr cs)]) ws)) in *.
  assert (He1 : extends (fs w) f1).
  { pose proof (makedirs_fs_extends w cs (fs w)) as H. now rewrite Hm1 in H. }
  assert (Hst : ∃ q, os.stat (cwd w) f1 (os.split_slash ls) = inr (q, File content)).
  { unfold os.stat_node in Hfile_at.
    destruct (os.stat (cwd w) (fs w) (os.split_slash ls)) as [e|[q n]] eqn:Hst;
      [discriminate|].
    injection Hfile_at as ->. exists q. now apply (stat_extends _ (fs w)). }
  destruct Hst as [q Hst].
  assert (Hm2 : os.makedirs_fs w1 ls (fs w1) = (Some FileExistsError, f1)).
  { replace (fs w1) with f1 by (subst w1; now destruct ws).
    unfold os.makedirs_fs.
    replace (cwd w1) with (cwd w) by (subst w1; destruct ws; simpl in *; congruence).
    eapply makedirs_go_on_file. exact Hst. }
  assert (Hr2 := makedirs_raises ls w1 _ _ Hm2).
  eexists. split; [|split; [|split; [|split]]].
  - rewrite (main_reaches_seed_step env g path w _ Hfile).
    rewrite (bind_returns _ _ _ _ _ Hs).
    unfold after_seed. unfold bind at 1.
    rewrite (ensure_directories_calls m others _ _ ws Hc Hl).
    rewrite (bind_returns _ _ _ _ _ Hr1).
    now rewrite (bind_raises _ _ _ _ _ Hr2).
  - subst w1. now destruct ws.
  - assert (Hi := makedirs_fs_isdir w cs (fs w) f1 Hdot Hm1).
    unfold os.isdir. subst w1. destruct ws; simpl in *. now subst.
  - unfold os.stat_node. subst w1. destruct ws; simpl in *. subst. now rewrite Hst.
  - exists (calls ws). subst w1. destruct ws; simpl. now rewrite <- app_assoc.
Qed.

Lemma main_logs_directory_blocked_witness :
  ∃ w', main (Sample.bare (VDict ∅ [])) (Sample.loaded (VDict ∅ [])) default_config
          Sample.boot_logs_taken = (Raise (Exc FileExistsError), w')
        ∧ fs w' = snd (os.makedirs_fs Sample.boot_logs_taken "checkpoints"
                         (fs Sample.boot_logs_taken))
        ∧ os.isdir w' "checkpoints" = true
        ∧ os.stat_node w' "logs" = inr (File "notes")
        ∧ ∃ before, calls w' = before ++ [CallMakedirs (VStr "checkpoints");
                                           CallMakedirs (VStr "logs")].
Proof.
  apply (main_logs_directory_blocked (Sample.bare (VDict ∅ [])) (Sample.loaded (VDict ∅ []))
           default_config Sample.boot_logs_taken ∅ [] "checkpoints" "logs" "notes").
  - split; [reflexivity|]. exists "seed: 42". split; reflexivity.
  - reflexivity.
  - reflexivity.
  - reflexivity.
  - reflexivity.
  - reflexivity.
Defined.

(** X16: the directory step never deletes or replaces anything: whatever
    the configuration and however the step ends, every entry of the file
    system before it, file or directory, is there unchanged after it. *)
Theorem ensure_directories_keeps_entries (config : value) (w : World)
    (q : list string) (n : node) :
  fs w !! q = Some n →
  fs (snd (ensure_directories config w)) !! q = Some n.
Proof.
  intros Hq. rewrite ensure_directories_cases.
  destruct (get config "paths" (VDict ∅ [])) as [e|paths]; [exact Hq|].
  destruct (get paths "checkpoints" (VStr "checkpoints")) as [e|vc]; [exact Hq|].
  destruct (get paths "logs" (VStr "logs")) as [e|vl]; [exact Hq|].
  unfold bind at 1.
  destruct (makedirs_keeps vc w) as (_ & Hk1 & _).
  destruct (os.makedirs vc w) as [[[]|r] w1]; simpl in *; [|now apply Hk1].
  unfold bind at 1.
  destruct (makedirs_keeps vl w1) as (_ & Hk2 & _).
  destruct (os.makedirs vl w1) as [[[]|r] w2]; simpl in *; apply Hk2; now apply Hk1.
Qed.

Lemma ensure_directories_keeps_entries_witness :
  fs (snd (ensure_directories (VDict ∅ []) Sample.boot_logs_taken)) !! ["logs"]
  = Some (File "notes").
Proof.
  apply (ensure_directories_keeps_entries (VDict ∅ []) Sample.boot_logs_taken ["logs"]
           (File "notes")).
  reflexivity.
Defined.

(** A call of [os.makedirs] that returned was made on a path. *)
Lemma makedirs_returned name w w' :
  os.makedirs name w = (Ret tt, w') →
  ∃ s f', (name = VStr s ∨ name = VBytes s)
          ∧ os.makedirs_fs w s (fs w) = (None, f')
          ∧ w' = with_fs f' (with_calls (calls w ++ [CallMakedirs name]) w).
Proof.
  assert (H : ∀ s, name = VStr s ∨ name = VBytes s →
                   os.makedirs name w = (Ret tt, w') →
                   ∃ s f', (name = VStr s ∨ name = VBytes s)
                           ∧ os.makedirs_fs w s (fs w) = (None, f')
                           ∧ w' = with_fs f' (with_calls (calls w ++ [CallMakedirs name]) w)).
  { intros s Hname. rewrite (makedirs_path name s w Hname).
    destruct (os.makedirs_fs w s (fs w)) as [[e|] f'] eqn:Hm; simpl; [discriminate|].
    intros [= <-]. exists s, f'. auto. }
  destruct name;
    try (apply (H s); left; reflexivity);
    try (apply (H b); right; reflexivity);
    unfold os.makedirs, note, modify, bind, raise; simpl; discriminate.
Qed.

(** On a directory, [os.makedirs] returns and leaves the disk alone. *)
Lemma makedirs_on_directory name s w :
  name = VStr s ∨ name = VBytes s →
  os.isdir w s = true →
  os.makedirs name w = (Ret tt, with_calls (calls w ++ [CallMakedirs name]) w).
Proof.
  intros Hname Hd.
  rewrite (makedirs_path name s w Hname), (makedirs_fs_on_dir w s (fs w) Hd).
  simpl. now destruct w.
Qed.

(** X17: the directory step can be repeated: after a run in which it
    returned, on directories whose names do not end in a [.] component,
    it returns again with the same checkpoint directory and leaves the
    file system exactly as it found it. *)
Theorem ensure_directories_again (config paths vc vl ckpt : value) (w w1 : World) :
  get config "paths" (VDict ∅ []) = inr paths →
  get paths "checkpoints" (VStr "checkpoints") = inr vc →
  get paths "logs" (VStr "logs") = inr vl →
  plain_end vc = true →
  plain_end vl = true →
  ensure_directories config w = (Ret ckpt, w1) →
  ∃ w2, ensure_directories config w1 = (Ret ckpt, w2) ∧ fs w2 = fs w1.
Proof.
  intros Hp Hgc Hgl Hpc Hpl.
  rewrite !ensure_directories_cases, Hp, Hgc, Hgl.
  intros Hrun.
  unfold bind at 1 in Hrun.
  destruct (os.makedirs vc w) as [[[]|r] wa] eqn:Ha; [|discriminate].
  unfold bind at 1 in Hrun.
  destruct (os.makedirs vl wa) as [[[]|r] wb] eqn:Hb; [|discriminate].
  injection Hrun as <- <-.
  destruct (makedirs_returned _ _ _ Ha) as (cs & fa & Hcs & Hca & ->).
  destruct (makedirs_returned _ _ _ Hb) as (ls & fb & Hls & Hcb & ->).
  assert (Hdc : os.dot_ended cs = false).
  { destruct Hcs as [->| ->]; simpl in Hpc; now apply negb_true_iff in Hpc. }
  assert (Hdl : os.dot_ended ls = false).
  { destruct Hls as [->| ->]; simpl in Hpl; now apply negb_true_iff in Hpl. }
  set (wa := with_fs fa (with_calls (calls w ++ [CallMakedirs vc]) w)) in *.
  assert (Hwa : cwd wa = cwd w ∧ stack_room wa = stack_room w ∧ fs wa = fa)
    by (subst wa; now destruct w).
  destruct Hwa as (Hcwa & Hrwa & Hfwa).
  rewrite Hfwa in Hcb. rewrite (makedirs_fs_frame w wa) in Hcb by assumption.
  assert (Hia := makedirs_fs_isdir w cs (fs w) fa Hdc Hca).
  assert (Hib := makedirs_fs_isdir w ls fa fb Hdl Hcb).
  assert (Heb : extends fa fb).
  { pose proof (makedirs_fs_extends w ls fa) as H. now rewrite Hcb in H. }
  set (wb := with_fs fb (with_calls (calls wa ++ [CallMakedirs vl]) wa)) in *.
  assert (Hwb : cwd wb = cwd w ∧ fs wb = fb)
    by (subst wb wa; now destruct w).
  destruct Hwb as (Hcwb & Hfwb).
  assert (H1 : os.makedirs vc wb = (Ret tt, with_calls (calls wb ++ [CallMakedirs vc]) wb)).
  { apply (makedirs_on_directory vc cs); [exact Hcs|].
    unfold os.isdir. rewrite Hcwb, Hfwb. now apply (isdir_extends _ fa). }
  set (wc := with_calls (calls wb ++ [CallMakedirs vc]) wb) in *.
  assert (Hwc : cwd wc = cwd w ∧ fs wc = fb)
    by (subst wc; destruct wb; simpl in *; auto).
  destruct Hwc as (Hcwc & Hfwc).
  assert (H2 : os.makedirs vl wc = (Ret tt, with_calls (calls wc ++ [CallMakedirs vl]) wc)).
  { apply (makedirs_on_directory vl ls); [exact Hls|].
    unfold os.isdir. now rewrite Hcwc, Hfwc. }
  eexists. split.
  - rewrite (bind_returns _ _ _ _ _ H1).
    rewrite (bind_returns _ _ _ _ _ H2).
    reflexivity.
  - simpl. subst wc. now destruct wb.
Qed.

Lemma ensure_directories_again_witness :
  ∃ w2, ensure_directories (VDict Sample.custom_paths [])
          (snd (ensure_directories (VDict Sample.custom_paths []) Sample.colab))
        = (Ret (VStr "runs/exp1/ckpt"), w2)
        ∧ fs w2 = fs (snd (ensure_directories (VDict Sample.custom_paths []) Sample.colab)).
Proof.
  apply (ensure_directories_again (VDict Sample.custom_paths [])
           (VDict {[ "checkpoints" := VStr "runs/exp1/ckpt";
                     "logs" := VStr "/content/runs/logs" ]} [])
           (VStr "runs/exp1/ckpt") (VStr "/content/runs/logs") (VStr "runs/exp1/ckpt")
           Sample.colab
           (snd (ensure_directories (VDict Sample.custom_paths []) Sample.colab))).
  - reflexivity.
  - reflexivity.
  - reflexivity.
  - reflexivity.
  - reflexivity.
  - reflexivity.
Defined.

(** On a name that ends in a [.] component the step is not repeatable:
    with the checkpoint directory [d/../notes/.], where [notes] is a
    regular file and [d] is missing, the first run makes [d] and returns,
    and the second raises [NotADirectoryError]. *)
Lemma ensure_directories_again_fails_on_dot :
  let config := VDict {[ "paths" := VDict {[ "checkpoints" := VStr "d/../notes/." ]} [] ]} [] in
  fst (ensure_directories config Sample.colab) = Ret (VStr "d/../notes/.")
  ∧ os.isdir (snd (ensure_directories config Sample.colab)) "d" = true
  ∧ os.isdir (snd (ensure_directories config Sample.colab)) "d/../notes/." = false
  ∧ fst (ensure_directories config (snd (ensure_directories config Sample.colab)))
    = Raise (Exc NotADirectoryError).
Proof. vm_compute. repeat split. Qed.

End DirectoryInvariants.

(** ** The seeding step with the function of [train_seed] *)

Section SeedingExtras.

Import train_colab.
Local Open Scope list_scope.

Lemma seed_step_converted env g m others v n w :
  m !! "seed" = Some v → int (interp env) v = inr n →
  seed_step env g (VDict m others) w
  = match set_seed g n w with
    | (Ret _, w2) => (Ret tt, with_log (log w2 ++ [seed_set v]) w2)
    | (Raise (Exc e), w2) => (Ret tt, with_log (log w2 ++ [seed_failed e]) w2)
    | (Raise (SystemExit c), w2) => (Raise (SystemExit c), w2)
    end.
Proof.
  intros Hseed Hint. rewrite seed_step_cases, Hseed.
  destruct v; try discriminate; now rewrite Hint.
Qed.

(** X18: with [set_seed] bound to the function of [train_seed] and a
    [seed] entry that the interpreter converts to an integer numpy
    accepts, [main] leaves its seeding step with both generators seeded
    from that integer, whatever state they were in, having logged "Set
    deterministic seed" with the value as the configuration gives it; the
    files are untouched, and [main] goes on with the directories and the
    dispatch. *)
Theorem main_seeds_generators (env : Env) (g : globals) (ts : train_seed.globals)
    (path : string) (w : World) (m : gmap string value) (others : list (value * value))
    (v : value) (n : Z) :
  set_seed_bound g = FromTrainSeed ts →
  config_file_holds g w path (VDict m others) →
  m !! "seed" = Some v →
  int (interp env) v = inr n →
  0 ≤ n < 2 ^ 32 →
  ∃ ws, seed_step env g (VDict m others) (configured w) = (Ret tt, ws)
        ∧ carries_on env path (VDict m others) ws (main env g path w)
        ∧ py_random ws = fresh (Z.abs n)
        ∧ np_random ws = fresh n
        ∧ log ws = log w ++ [seed_set v]
        ∧ fs ws = fs w.
Proof.
  intros Hb Hfile Hseed Hint Hr.
  destruct (set_seed_returns ts n (configured w) Hr) as [done Hs].
  assert (Hset : set_seed g n (configured w)
                 = (Ret tt, with_torch_done done (seeded n (configured w))))
    by (unfold set_seed; now rewrite Hb).
  assert (Hstep := seed_step_converted env g m others v n (configured w) Hseed Hint).
  rewrite Hset in Hstep.
  eexists. split; [exact Hstep|]. split.
  - rewrite (main_reaches_seed_step env g path w _ Hfile).
    rewrite (bind_returns _ _ _ _ _ Hstep).
    apply after_seed_carries_on.
  - unfold configured. destruct w as [? ? ? ? [l|] ? ? ? ? ?]; repeat split.
Qed.

Lemma main_seeds_generators_witness :
  ∃ ws, seed_step (Sample.bare (VDict {[ "seed" := VStr "42" ]} []))
          (Sample.loaded (VDict {[ "seed" := VStr "42" ]} []))
          (VDict {[ "seed" := VStr "42" ]} []) (configured Sample.boot) = (Ret tt, ws)
        ∧ carries_on (Sample.bare (VDict {[ "seed" := VStr "42" ]} [])) default_config
            (VDict {[ "seed" := VStr "42" ]} []) ws
            (main (Sample.bare (VDict {[ "seed" := VStr "42" ]} []))
               (Sample.loaded (VDict {[ "seed" := VStr "42" ]} [])) default_config
               Sample.boot)
        ∧ py_random ws = fresh (Z.abs 42)
        ∧ np_random ws = fresh 42
        ∧ log ws = log Sample.boot ++ [seed_set (VStr "42")]
        ∧ fs ws = fs Sample.boot.
Proof.
  apply (main_seeds_generators (Sample.bare (VDict {[ "seed" := VStr "42" ]} []))
           (Sample.loaded (VDict {[ "seed" := VStr "42" ]} []))
           {| train_seed.torch := None |}
           default_config Sample.boot {[ "seed" := VStr "42" ]} [] (VStr "42") 42).
  - reflexivity.
  - apply sample_config_file.
  - reflexivity.
  - reflexivity.
  - lia.
Defined.

(** X19: with [set_seed] bound to the function of [train_seed] and a
    [seed] entry that the interpreter converts to an integer outside
    0 .. 2^32 - 1 (a negative seed, say), [main] logs the warning "Failed
    to set seed" with the [ValueError], logs no "Set deterministic seed",
    and goes on with only [random] seeded: numpy's generator and torch
    are as they were. *)
Theorem main_seed_out_of_range (env : Env) (g : globals) (ts : train_seed.globals)
    (path : string) (w : World) (m : gmap string value) (others : list (value * value))
    (v : value) (n : Z) :
  set_seed_bound g = FromTrainSeed ts →
  config_file_holds g w path (VDict m others) →
  m !! "seed" = Some v →
  int (interp env) v = inr n →
  ¬ (0 ≤ n < 2 ^ 32) →
  ∃ ws, seed_step env g (VDict m others) (configured w) = (Ret tt, ws)
        ∧ carries_on env path (VDict m others) ws (main env g path w)
        ∧ log ws = log w ++ [seed_failed ValueError]
        ∧ py_random ws = fresh (Z.abs n)
        ∧ np_random ws = np_random w
        ∧ torch_done ws = torch_done w.
Proof.
  intros Hb Hfile Hseed Hint Hr.
  assert (Hset : set_seed g n (configured w)
                 = (Raise (Exc ValueError),
                    with_calls (calls (configured w)
                                ++ [CallSetSeed n; CallRandomSeed n; CallNumpySeed n])
                      (with_py_random (fresh (Z.abs n)) (configured w))))
    by (unfold set_seed; rewrite Hb; now apply set_seed_rejected).
  assert (Hstep := seed_step_converted env g m others v n (configured w) Hseed Hint).
  rewrite Hset in Hstep.
  eexists. split; [exact Hstep|]. split.
  - rewrite (main_reaches_seed_step env g path w _ Hfile).
    rewrite (bind_returns _ _ _ _ _ Hstep).
    apply after_seed_carries_on.
  - unfold configured. destruct w as [? ? ? ? [l|] ? ? ? ? ?]; repeat split.
Qed.

Lemma main_seed_out_of_range_witness :
  ∃ ws, seed_step (Sample.bare (VDict {[ "seed" := VInt (-1) ]} []))
          (Sample.loaded (VDict {[ "seed" := VInt (-1) ]} []))
          (VDict {[ "seed" := VInt (-1) ]} []) (configured Sample.boot) = (Ret tt, ws)
        ∧ carries_on (Sample.bare (VDict {[ "seed" := VInt (-1) ]} [])) default_config
            (VDict {[ "seed" := VInt (-1) ]} []) ws
            (main (Sample.bare (VDict {[ "seed" := VInt (-1) ]} []))
               (Sample.loaded (VDict {[ "seed" := VInt (-1) ]} [])) default_config
               Sample.boot)
        ∧ log ws = log Sample.boot ++ [seed_failed ValueError]
        ∧ py_random ws = fresh (Z.abs (-1))
        ∧ np_random ws = np_random Sample.boot
        ∧ torch_done ws = torch_done Sample.boot.
Proof.
  apply (main_seed_out_of_range (Sample.bare (VDict {[ "seed" := VInt (-1) ]} []))
           (Sample.loaded (VDict {[ "seed" := VInt (-1) ]} []))
           {| train_seed.torch := None |}
           default_config Sample.boot {[ "seed" := VInt (-1) ]} [] (VInt (-1)) (-1)).
  - reflexivity.
  - apply sample_config_file.
  - reflexivity.
  - reflexivity.
  - lia.
Defined.

End SeedingExtras.

(** ** The resume notice and the dispatch *)

Section DispatchExtras.

Import train_colab.
Local Open Scope list_scope.

(** The run of [main] on a valid configuration, down to its dispatch. *)
Lemma main_reaches_dispatch env g path w m others cs ls :
  config_file_holds g w path (VDict m others) →
  valid_configuration w (VDict m others) cs ls →
  ∃ ws wd,
    seed_step env g (VDict m others) (configured w) = (Ret tt, ws)
    ∧ ensure_directories (VDict m others) ws = (Ret (VStr cs), wd)
    ∧ directories_made ws wd cs ls
    ∧ cwd wd = cwd w
    ∧ main env g path w
      = dispatch env path (VDict m others)
          (if truthy (match m !! "resume" with Some v => v | None => VBool false end)
           then with_log (log wd ++ [resume_enabled (VStr cs)]) wd
           else wd).
Proof.
  intros Hfile Hvalid.
  destruct (seed_step_returns env g m others (configured w))
    as (ws & Hs & Hfs & _ & Hcwd & Hroom).
  rewrite fs_configured in Hfs. rewrite cwd_configured in Hcwd.
  rewrite stack_room_configured in Hroom.
  apply (valid_configuration_frame w ws) in Hvalid; auto.
  destruct (ensure_directories_valid _ _ _ _ Hvalid) as (wd & He & Hmade & Hcwd').
  exists ws, wd. split; [exact Hs|]. split; [exact He|]. split; [exact Hmade|].
  split; [congruence|].
  rewrite (main_reaches_seed_step env g path w _ Hfile).
  rewrite (bind_returns _ _ _ _ _ Hs). unfold after_seed.
  rewrite (bind_returns _ _ _ _ _ He).
  now rewrite (bind_returns _ _ _ _ _ (resume_notice_cases m others (VStr cs) _)).
Qed.

(** X20: on a valid configuration, the [resume] entry only decides
    whether one record is logged before the dispatch: "Resume enabled",
    naming the checkpoint directory, exactly when the entry is truthy
    (absent counts as false; a non-empty string counts as true).  Nothing
    is restored: the dispatch starts from the world the directory step
    ended in, with that record or without it. *)
Theorem main_resume_notice (env : Env) (g : globals) (path : string) (w : World)
    (m : gmap string value) (others : list (value * value)) (cs ls : string) :
  config_file_holds g w path (VDict m others) →
  valid_configuration w (VDict m others) cs ls →
  ∃ ws wd,
    seed_step env g (VDict m others) (configured w) = (Ret tt, ws)
    ∧ ensure_directories (VDict m others) ws = (Ret (VStr cs), wd)
    ∧ main env g path w
      = dispatch env path (VDict m others)
          (if truthy (match m !! "resume" with Some v => v | None => VBool false end)
           then with_log (log wd ++ [resume_enabled (VStr cs)]) wd
           else wd).
Proof.
  intros Hfile Hvalid.
  destruct (main_reaches_dispatch env g path w m others cs ls Hfile Hvalid)
    as (ws & wd & Hs & He & _ & _ & Hmain).
  exists ws, wd. auto.
Qed.

Lemma main_resume_notice_witness :
  ∃ ws wd,
    seed_step (Sample.bare (VDict {[ "resume" := VStr "false" ]} []))
      (Sample.loaded (VDict {[ "resume" := VStr "false" ]} []))
      (VDict {[ "resume" := VStr "false" ]} []) (configured Sample.boot) = (Ret tt, ws)
    ∧ ensure_directories (VDict {[ "resume" := VStr "false" ]} []) ws
      = (Ret (VStr "checkpoints"), wd)
    ∧ main (Sample.bare (VDict {[ "resume" := VStr "false" ]} []))
        (Sample.loaded (VDict {[ "resume" := VStr "false" ]} [])) default_config
        Sample.boot
      = dispatch (Sample.bare (VDict {[ "resume" := VStr "false" ]} [])) default_config
          (VDict {[ "resume" := VStr "false" ]} [])
          (if truthy (match ({[ "resume" := VStr "false" ]} : gmap string value)
                              !! "resume" with
                      | Some v => v
                      | None => VBool false
                      end)
           then with_log (log wd ++ [resume_enabled (VStr "checkpoints")]) wd
           else wd).
Proof.
  apply (main_resume_notice (Sample.bare (VDict {[ "resume" := VStr "false" ]} []))
           (Sample.loaded (VDict {[ "resume" := VStr "false" ]} [])) default_config
           Sample.boot {[ "resume" := VStr "false" ]} [] "checkpoints" "logs").
  - apply sample_config_file.
  - apply sample_valid. reflexivity.
Defined.

Lemma resolve_train_outcome env w w' :
  fst (resolve_train env w) = fst (resolve_train env w').
Proof.
  rewrite !resolve_train_cases.
  destruct (import_train env) as [mo|[e|c]]; [| |reflexivity].
  - now destruct (train_attr mo).
  - now destruct (import_train_again env) as [mo'|[e'|c']].
Qed.

(** The world in which the dispatch of a valid configuration starts. *)
Lemma main_dispatch_world env g path w m others cs ls :
  config_file_holds g w path (VDict m others) →
  valid_configuration w (VDict m others) cs ls →
  ∃ ws wr,
    main env g path w = dispatch env path (VDict m others) wr
    ∧ os.isdir wr cs = true
    ∧ os.isdir wr ls = true
    ∧ calls wr = calls ws ++ [CallMakedirs (VStr cs); CallMakedirs (VStr ls)].
Proof.
  intros Hfile Hvalid.
  destruct (main_reaches_dispatch env g path w m others cs ls Hfile Hvalid)
    as (ws & wd & _ & _ & (Hcalls & Hdc & Hdl & _) & _ & Hmain).
  exists ws. eexists. split; [exact Hmain|].
  destruct (truthy _).
  - repeat split.
    + rewrite <- Hdc. apply isdir_frame; now destruct wd.
    + rewrite <- Hdl. apply isdir_frame; now destruct wd.
    + rewrite <- Hcalls. now destruct wd.
  - auto.
Qed.

(** X21: on a valid configuration and with a function [f] resolved for
    [train], [main] ends as [f(config)] ends: it returns when [f]
    returns and raises what [f] raises.  [f] is called once, with the
    parsed configuration, after both directories were created and the
    record "Starting training with config" was logged. *)
Theorem main_runs_train (env : Env) (g : globals) (path : string) (w : World)
    (m : gmap string value) (others : list (value * value)) (cs ls : string)
    (f : value → M unit) :
  config_file_holds g w path (VDict m others) →
  valid_configuration w (VDict m others) cs ls →
  fst (resolve_train env w) = Ret (ObjFunction f) →
  ∃ wt, main env g path w = f (VDict m others) wt
        ∧ os.isdir wt cs = true
        ∧ os.isdir wt ls = true
        ∧ (∃ earlier, log wt = earlier ++ [starting_training path])
        ∧ ∃ before more,
            calls wt = before
                       ++ [CallMakedirs (VStr cs); CallMakedirs (VStr ls)]
                       ++ map CallImport ("from train import train" :: more)
                       ++ [CallTrain (VDict m others)].
Proof.
  intros Hfile Hvalid Hres.
  destruct (main_dispatch_world env g path w m others cs ls Hfile Hvalid)
    as (ws & wr & Hmain & Hdc & Hdl & Hcalls).
  destruct (resolve_train_tried env wr) as (more & Hw).
  assert (Hr : resolve_train env wr
               = (Ret (ObjFunction f), tried ("from train import train" :: more) wr)).
  { rewrite (resolve_train_outcome env w wr) in Hres.
    destruct (resolve_train env wr) as [o w']. simpl in *. now subst. }
  eexists. split.
  - rewrite Hmain. rewrite (dispatch_after_resolution _ _ _ _ _ _ Hr). reflexivity.
  - split; [|split; [|split]].
    + rewrite <- Hdc. apply isdir_frame; now destruct wr.
    + rewrite <- Hdl. apply isdir_frame; now destruct wr.
    + eexists. destruct wr; reflexivity.
    + exists (calls ws), more.
      replace (calls _) with (calls wr ++ map CallImport ("from train import train" :: more)
                              ++ [CallTrain (VDict m others)])
        by (destruct wr; simpl; now rewrite <- !app_assoc).
      rewrite Hcalls, <- !app_assoc. reflexivity.
Qed.

Lemma main_runs_train_witness :
  ∃ wt, main (Sample.with_train (VDict Sample.custom_paths []))
          (Sample.loaded (VDict Sample.custom_paths [])) default_config Sample.colab
        = print "training" wt
        ∧ os.isdir wt "runs/exp1/ckpt" = true
        ∧ os.isdir wt "/content/runs/logs" = true
        ∧ (∃ earlier, log wt = earlier ++ [starting_training default_config])
        ∧ ∃ before more,
            calls wt = before
                       ++ [CallMakedirs (VStr "runs/exp1/ckpt");
                           CallMakedirs (VStr "/content/runs/logs")]
                       ++ map CallImport ("from train import train" :: more)
                       ++ [CallTrain (VDict Sample.custom_paths [])].
Proof.
  apply (main_runs_train (Sample.with_train (VDict Sample.custom_paths []))
           (Sample.loaded (VDict Sample.custom_paths [])) default_config Sample.colab
           Sample.custom_paths [] "runs/exp1/ckpt" "/content/runs/logs"
           (fun _ => print "training")).
  - apply colab_config_file.
  - apply colab_valid.
  - reflexivity.
Defined.

(** X22: when the name [train] resolves to an object that is neither
    [None] nor a function, [main] does not take the exit with status 3:
    it logs "Starting training with config" and the call raises
    [TypeError], after both directories were created. *)
Theorem main_train_not_callable (env : Env) (g : globals) (path : string) (w : World)
    (m : gmap string value) (others : list (value * value)) (cs ls : string) :
  config_file_holds g w path (VDict m others) →
  valid_configuration w (VDict m others) cs ls →
  fst (resolve_train env w) = Ret ObjOther →
  ∃ wt, main env g path w = (Raise (Exc TypeError), wt)
        ∧ os.isdir wt cs = true
        ∧ os.isdir wt ls = true
        ∧ ∃ earlier, log wt = earlier ++ [starting_training path].
Proof.
  intros Hfile Hvalid Hres.
  destruct (main_dispatch_world env g path w m others cs ls Hfile Hvalid)
    as (ws & wr & Hmain & Hdc & Hdl & Hcalls).
  destruct (resolve_train_tried env wr) as (more & Hw).
  assert (Hr : resolve_train env wr
               = (Ret ObjOther, tried ("from train import train" :: more) wr)).
  { rewrite (resolve_train_outcome env w wr) in Hres.
    destruct (resolve_train env wr) as [o w']. simpl in *. now subst. }
  eexists. split.
  - rewrite Hmain. rewrite (dispatch_after_resolution _ _ _ _ _ _ Hr). reflexivity.
  - split; [|split].
    + rewrite <- Hdc. apply isdir_frame; now destruct wr.
    + rewrite <- Hdl. apply isdir_frame; now destruct wr.
    + eexists. destruct wr; reflexivity.
Qed.

Lemma main_train_not_callable_witness :
  ∃ wt, main (Sample.with_odd_train (VDict ∅ [])) (Sample.loaded (VDict ∅ []))
          default_config Sample.boot
        = (Raise (Exc TypeError), wt)
        ∧ os.isdir wt "checkpoints" = true
        ∧ os.isdir wt "logs" = true
        ∧ ∃ earlier, log wt = earlier ++ [starting_training default_config].
Proof.
  apply (main_train_not_callable (Sample.with_odd_train (VDict ∅ []))
           (Sample.loaded (VDict ∅ [])) default_config Sample.boot ∅ [] "checkpoints" "logs").
  - apply sample_config_file.
  - apply sample_valid. reflexivity.
  - reflexivity.
Defined.

End DispatchExtras.
